(** * Contact assistant (homework8.py): birthday shifting, reminders, fields

    A shallow embedding of [homework8.py] together with the fragment of the
    Python runtime it relies on ([str], [datetime.date], exceptions), and
    the properties of the program stated and proved over that embedding. *)

From Stdlib Require Import ZArith NArith List Bool Lia String Ascii.
From Stdlib Require DecimalString.
Import ListNotations.
Local Open Scope Z_scope.

Set Implicit Arguments.

(* ================================================================== *)
(** * The Python runtime fragment                                      *)
(* ================================================================== *)

Module Py.

(** Exceptions the program raises or lets through. *)
Inductive exn : Type :=
| ValueError (msg : string)
| KeyError (msg : string)
| IndexError (msg : string)
| OverflowError (msg : string).

(** Outcome of an expression that may raise. *)
Inductive result (A : Type) : Type :=
| Ok (a : A)
| Raise (e : exn).
Arguments Ok {A} a.
Arguments Raise {A} e.

Definition bind {A B} (r : result A) (k : A -> result B) : result B :=
  match r with
  | Ok a => k a
  | Raise e => Raise e
  end.

Definition is_ok {A} (r : result A) : bool :=
  match r with Ok _ => true | Raise _ => false end.

Definition is_ValueError {A} (r : result A) : bool :=
  match r with Raise (ValueError _) => true | _ => false end.

(** A [str] is a sequence of Unicode code points. *)
Definition str : Type := list N.

(** A literal of the program text. *)
Definition lit (s : string) : str := map N_of_ascii (list_ascii_of_string s).

Definition str_eqb (a b : str) : bool :=
  if list_eq_dec N.eq_dec a b then true else false.

(** The values that can reach a field constructor. *)
Inductive object : Type :=
| OStr (s : str)
| OInt (z : Z)
| OBool (b : bool)
| ONone.

(** [isinstance(o, str)]. *)
Definition isinstance_str (o : object) : bool :=
  match o with OStr _ => true | _ => false end.

(** First code points of the blocks of ten decimal digits (general
    category Nd, Unicode 14.0); the digit at [b + k] has value [k]. *)
Definition DECIMAL_BLOCKS : list N :=
  [48; 1632; 1776; 1984; 2406; 2534; 2662; 2790; 2918; 3046; 3174; 3302;
   3430; 3558; 3664; 3792; 3872; 4160; 4240; 6112; 6160; 6470; 6608; 6784;
   6800; 6992; 7088; 7232; 7248; 42528; 43216; 43264; 43472; 43504; 43600;
   44016; 65296; 66720; 68912; 69734; 69872; 69942; 70096; 70384; 70736;
   70864; 71248; 71360; 71472; 71904; 72016; 72784; 73040; 73120; 92768;
   92864; 93008; 120782; 120792; 120802; 120812; 120822; 123200; 123632;
   125264; 130032]%N.

(** Ranges of the code points with Numeric_Type=Digit that are not
    decimal (superscripts, subscripts, circled digits and the like). *)
Definition OTHER_DIGIT_RANGES : list (N * N) :=
  [(178, 179); (185, 185); (4969, 4977); (6618, 6618); (8304, 8304);
   (8308, 8313); (8320, 8329); (9312, 9320); (9332, 9340); (9352, 9360);
   (9450, 9450); (9461, 9469); (9471, 9471); (10102, 10110);
   (10112, 10120); (10122, 10130); (68160, 68163); (69216, 69224);
   (69714, 69722); (127232, 127242)]%N.

Definition in_range (lo hi c : N) : bool := ((lo <=? c) && (c <=? hi))%N.

(** The decimal value of a code point, when it is a decimal digit. *)
Definition decimal_value (c : N) : option Z :=
  match find (fun b => in_range b (b + 9) c) DECIMAL_BLOCKS with
  | Some b => Some (Z.of_N (c - b))
  | None => None
  end.

(** One-character [str.isdecimal()]; also what [\d] matches. *)
Definition isdecimal_char (c : N) : bool :=
  match decimal_value c with Some _ => true | None => false end.

(** One-character [str.isdigit()]. *)
Definition isdigit_char (c : N) : bool :=
  isdecimal_char c
  || existsb (fun r => in_range (fst r) (snd r) c) OTHER_DIGIT_RANGES.

(** [s.isdigit()]: every character is a digit and there is at least
    one. *)
Definition isdigit (s : str) : bool :=
  match s with
  | [] => false
  | _ => forallb isdigit_char s
  end.

(** [len(s)]. *)
Definition len (s : str) : Z := Z.of_nat (List.length s).

(** ['0' <= c <= '9']. *)
Definition is_ascii_digit (c : N) : bool := in_range 48 57 c.

(** [sep.join(parts)]. *)
Fixpoint join (sep : str) (parts : list str) : str :=
  match parts with
  | [] => []
  | [x] => x
  | x :: rest => x ++ sep ++ join sep rest
  end.

(** ** State and exceptions

    A method or command is a function of the object it mutates; the
    state it leaves behind survives an exception. *)
Definition M (S A : Type) : Type := S -> result A * S.

Definition ret {S A} (a : A) : M S A := fun s => (Ok a, s).

Definition raise {S A} (e : exn) : M S A := fun s => (Raise e, s).

Definition mbind {S A B} (m : M S A) (k : A -> M S B) : M S B :=
  fun s =>
    match m s with
    | (Ok a, s') => k a s'
    | (Raise e, s') => (Raise e, s')
    end.

Definition get {S} : M S S := fun s => (Ok s, s).

Definition modify {S} (f : S -> S) : M S unit := fun s => (Ok tt, f s).

Definition lift {S A} (r : result A) : M S A := fun s => (r, s).

(** [for x in xs: body(x)]. *)
Fixpoint for_each {S A} (xs : list A) (body : A -> M S unit) : M S unit :=
  match xs with
  | [] => ret tt
  | x :: rest => mbind (body x) (fun _ => for_each rest body)
  end.

End Py.

Export Py.

Declare Scope py_scope.
Delimit Scope py_scope with py.
Notation "x <- c ;; k" := (Py.bind c (fun x => k))
  (at level 100, c at next level, right associativity) : py_scope.

Declare Scope pym_scope.
Delimit Scope pym_scope with pym.
Notation "x <- c ;; k" := (Py.mbind c (fun x => k))
  (at level 100, c at next level, right associativity) : pym_scope.
Notation "c ;;; k" := (Py.mbind c (fun _ => k))
  (at level 100, k at level 200, right associativity) : pym_scope.
Local Open Scope py_scope.

(* ================================================================== *)
(** * datetime.date                                                    *)
(* ================================================================== *)

(** The proleptic Gregorian calendar of Python's [datetime] module, with
    its helper functions [_is_leap], [_days_before_year], [_days_in_month],
    [_days_before_month], [_ymd2ord] and [_ord2ymd]. *)
Module Datetime.

Definition MINYEAR : Z := 1.
Definition MAXYEAR : Z := 9999.
Definition MAXORDINAL : Z := 3652059.

Definition DAYS_IN_MONTH : list Z :=
  [-1; 31; 28; 31; 30; 31; 30; 31; 31; 30; 31; 30; 31].
Definition DAYS_BEFORE_MONTH : list Z :=
  [-1; 0; 31; 59; 90; 120; 151; 181; 212; 243; 273; 304; 334].

Definition is_leap (y : Z) : bool :=
  (y mod 4 =? 0) && (negb (y mod 100 =? 0) || (y mod 400 =? 0)).

Definition days_before_year (year : Z) : Z :=
  let y := year - 1 in
  y * 365 + y / 4 - y / 100 + y / 400.

Definition days_in_month (year month : Z) : Z :=
  if (month =? 2) && is_leap year then 29
  else nth (Z.to_nat month) DAYS_IN_MONTH 0.

Definition days_before_month (year month : Z) : Z :=
  nth (Z.to_nat month) DAYS_BEFORE_MONTH 0
  + (if (2 <? month) && is_leap year then 1 else 0).

Definition ymd2ord (year month day : Z) : Z :=
  days_before_year year + days_before_month year month + day.

Definition DI400Y : Z := Eval compute in days_before_year 401.
Definition DI100Y : Z := Eval compute in days_before_year 101.
Definition DI4Y : Z := Eval compute in days_before_year 5.

Definition ord2ymd (n : Z) : Z * Z * Z :=
  let n := n - 1 in
  let n400 := n / DI400Y in
  let n := n mod DI400Y in
  let year := n400 * 400 + 1 in
  let n100 := n / DI100Y in
  let n := n mod DI100Y in
  let n4 := n / DI4Y in
  let n := n mod DI4Y in
  let n1 := n / 365 in
  let n := n mod 365 in
  let year := year + n100 * 100 + n4 * 4 + n1 in
  if (n1 =? 4) || (n100 =? 4) then (year - 1, 12, 31)
  else
    let leapyear := (n1 =? 3) && (negb (n4 =? 24) || (n100 =? 3)) in
    let month := Z.shiftr (n + 50) 5 in
    let preceding :=
      nth (Z.to_nat month) DAYS_BEFORE_MONTH 0
      + (if (2 <? month) && leapyear then 1 else 0) in
    if n <? preceding then
      let month := month - 1 in
      let preceding :=
        preceding
        - (nth (Z.to_nat month) DAYS_IN_MONTH 0
           + (if (month =? 2) && leapyear then 1 else 0)) in
      (year, month, n - preceding + 1)
    else (year, month, n - preceding + 1).

(** A [date] object; the constructor [new] is the only way the program
    obtains one, so every date it handles satisfies [valid]. *)
Record date : Type := mk { year : Z; month : Z; day : Z }.

Definition validb (d : date) : bool :=
  (MINYEAR <=? year d) && (year d <=? MAXYEAR)
  && (1 <=? month d) && (month d <=? 12)
  && (1 <=? day d) && (day d <=? days_in_month (year d) (month d)).

Definition valid (d : date) : Prop := validb d = true.

(** [date(year, month, day)] with [_check_date_fields]. *)
Definition new (y m d : Z) : result date :=
  if negb ((MINYEAR <=? y) && (y <=? MAXYEAR)) then
    Raise (ValueError "year is out of range")
  else if negb ((1 <=? m) && (m <=? 12)) then
    Raise (ValueError "month must be in 1..12")
  else if negb ((1 <=? d) && (d <=? days_in_month y m)) then
    Raise (ValueError "day is out of range for month")
  else Ok (mk y m d).

Definition toordinal (d : date) : Z := ymd2ord (year d) (month d) (day d).

Definition fromordinal (n : Z) : date :=
  let '(y, m, d) := ord2ymd n in mk y m d.

(** [date.weekday()]: Monday is 0, Sunday is 6. *)
Definition weekday (d : date) : Z := (toordinal d + 6) mod 7.

(** [timedelta(days=k)], kept as its number of days. *)
Definition timedelta (days : Z) : result Z :=
  if Z.abs days <=? 999999999 then Ok days
  else Raise (OverflowError "days must have magnitude <= 999999999").

(** [d + delta] for a [timedelta] of [k] days. *)
Definition add_days (d : date) (k : Z) : result date :=
  let o := toordinal d + k in
  if (0 <? o) && (o <=? MAXORDINAL) then Ok (fromordinal o)
  else Raise (OverflowError "date value out of range").

(** [d.replace(year=y)]: a new date built through the checking
    constructor. *)
Definition replace_year (d : date) (y : Z) : result date :=
  new y (month d) (day d).

(** [a < b]: comparison of the (year, month, day) triples. *)
Definition ltb (a b : date) : bool :=
  (year a <? year b)
  || ((year a =? year b)
      && ((month a <? month b)
          || ((month a =? month b) && (day a <? day b)))).

Definition eqb (a b : date) : bool :=
  (year a =? year b) && (month a =? month b) && (day a =? day b).

(** [(a - b).days]. *)
Definition sub_days (a b : date) : Z := toordinal a - toordinal b.

(** ** [strptime] and [strftime] for the format ["%d.%m.%Y"]

    [_strptime] turns the format into the regular expression
    [(3[0-1]|[1-2]\d|0[1-9]|[1-9]| [1-9])\.(1[0-2]|0[1-9]|[1-9])\.(\d\d\d\d)],
    matches it at the start of the text, and refuses text that goes on
    after the match. A group is a list of alternatives, tried in order; an
    alternative is a list of character classes. *)
Definition char_class : Type := N -> bool.
Definition chr (a : ascii) : char_class := N.eqb (N_of_ascii a).
Definition rng (a b : ascii) : char_class :=
  in_range (N_of_ascii a) (N_of_ascii b).

Definition RE_d : list (list char_class) :=
  [[chr "3"; rng "0" "1"]; [rng "1" "2"; isdecimal_char];
   [chr "0"; rng "1" "9"]; [rng "1" "9"]; [chr " "; rng "1" "9"]].
Definition RE_m : list (list char_class) :=
  [[chr "1"; rng "0" "2"]; [chr "0"; rng "1" "9"]; [rng "1" "9"]].
Definition RE_Y : list (list char_class) :=
  [[isdecimal_char; isdecimal_char; isdecimal_char; isdecimal_char]].
Definition RE_dot : list (list char_class) := [[chr "."]].

(** Consume one character per class; the matched text and the rest. *)
Fixpoint take (classes : list char_class) (s : str) : option (str * str) :=
  match classes with
  | [] => Some ([], s)
  | p :: ps =>
      match s with
      | c :: s' =>
          if p c then
            match take ps s' with
            | Some (m, r) => Some (c :: m, r)
            | None => None
            end
          else None
      | [] => None
      end
  end.

(** Backtracking match of a sequence of groups: the first alternative
    of a group after which the remaining groups match is the one taken. *)
Fixpoint re_match (groups : list (list (list char_class))) (s : str)
  : option (list str * str) :=
  match groups with
  | [] => Some ([], s)
  | alts :: gs =>
      (fix try (alts : list (list char_class)) : option (list str * str) :=
         match alts with
         | [] => None
         | a :: alts' =>
             match take a s with
             | Some (cap, rest) =>
                 match re_match gs rest with
                 | Some (caps, r) => Some (cap :: caps, r)
                 | None => try alts'
                 end
             | None => try alts'
             end
         end) alts
  end.

(** [int(text)] on the text of a group: decimal digits after an optional
    blank. *)
Definition int_of (text : str) : Z :=
  fold_left (fun acc c =>
               match decimal_value c with
               | Some v => acc * 10 + v
               | None => acc
               end) text 0.

(** [datetime.strptime(s, "%d.%m.%Y").date()]. *)
Definition strptime (s : str) : result date :=
  match re_match [RE_d; RE_dot; RE_m; RE_dot; RE_Y] s with
  | Some ([d; _; m; _; y], []) => new (int_of y) (int_of m) (int_of d)
  | Some (_, _) => Raise (ValueError "unconverted data remains")
  | None => Raise (ValueError "time data does not match format")
  end.

Definition digit (n : Z) : N := Z.to_N (48 + n mod 10).
Definition zfill2 (n : Z) : str := [digit (n / 10); digit n].
Definition zfill4 (n : Z) : str :=
  [digit (n / 1000); digit (n / 100); digit (n / 10); digit n].

(** [d.strftime("%d.%m.%Y")]: day and month with two digits, the year
    with four. For a year below 1000 the C library decides whether the
    year is padded; it is padded here. *)
Definition strftime (d : date) : str :=
  zfill2 (day d) ++ lit "." ++ zfill2 (month d) ++ lit "."
  ++ zfill4 (year d).

End Datetime.

Import Datetime.

(* ================================================================== *)
(** * homework8.py                                                     *)
(* ================================================================== *)

Definition find_next_weekday (current_date : date) (target_weekday : Z)
  : result date :=
  let days_ahead := target_weekday - weekday current_date in
  let days_ahead := if days_ahead <? 0 then days_ahead + 7 else days_ahead in
  delta <- timedelta days_ahead ;;
  add_days current_date delta.

Definition adjust_birthday (birthday : date) : result date :=
  if weekday birthday =? 5 then find_next_weekday birthday 1
  else if weekday birthday =? 6 then find_next_weekday birthday 2
  else Ok birthday.

(** The decorator: three kinds of exception become a reply; any other
    exception goes through. *)
Definition input_error {S} (func : M S object) : M S object :=
  fun s =>
    match func s with
    | (Raise (ValueError _), s') =>
        (Ok (OStr (lit "Invalid input. Please check your input format and try again.")), s')
    | (Raise (KeyError _), s') =>
        (Ok (OStr (lit "Invalid input. The specified key does not exist.")), s')
    | (Raise (IndexError _), s') =>
        (Ok (OStr (lit "Invalid input. Please provide all necessary arguments.")), s')
    | r => r
    end.

(** A constructed field: [__init__] stores the value and validates it, so
    a field that exists holds a value its class accepted. *)
Record Field : Type := mkField { value : str }.

Definition Name (value : object) : result Field :=
  match value with
  | OStr s => Ok (mkField s)
  | _ => Raise (ValueError "Name must be a string")
  end.

Definition Phone (value : object) : result Field :=
  match value with
  | OStr s =>
      if negb (isdigit s) then
        Raise (ValueError "Phone number must contain only digits")
      else if negb (len s =? 10) then
        Raise (ValueError "Phone number must be 10 digits long")
      else Ok (mkField s)
  | _ => Raise (ValueError "Phone number must be a string")
  end.

Definition Birthday (value : str) : result Field :=
  match strptime value with
  | Ok _ => Ok (mkField value)
  | Raise (ValueError _) =>
      Raise (ValueError "Invalid date format. Please use DD.MM.YYYY")
  | Raise e => Raise e
  end.

Module Record.

Record t : Type :=
  mk { name : Field; phones : list Field; birthday : option Field }.

Definition init (name : object) : result t :=
  n <- Name name ;; Ok (mk n [] None).

Definition set_phones (ps : list Field) (self : t) : t :=
  mk (name self) ps (birthday self).

Definition set_birthday (b : option Field) (self : t) : t :=
  mk (name self) (phones self) b.

Definition add_phone (phone : object) : M t unit :=
  (phone_obj <- lift (Phone phone) ;;
   modify (fun self => set_phones (phones self ++ [phone_obj]) self))%pym.

(** [str(p) != phone]: a [str] differs from every value that is not a
    [str]. *)
Definition differs (p : Field) (phone : object) : bool :=
  match phone with
  | OStr s => negb (str_eqb (value p) s)
  | _ => true
  end.

Definition remove_phone (phone : object) : M t unit :=
  modify (fun self =>
            set_phones (filter (fun p => differs p phone) (phones self))
              self).

Definition get_phone (self : t) : str :=
  join (lit "; ") (map value (phones self)).

Definition change_phone (old_phone new_phone : object) : M t unit :=
  (remove_phone old_phone ;;; add_phone new_phone)%pym.

Definition add_birthday (birthday : str) : M t unit :=
  (birthday_date <- lift (strptime birthday) ;;
   adjusted_birthday <- lift (adjust_birthday birthday_date) ;;
   b <- lift (Birthday (strftime adjusted_birthday)) ;;
   modify (set_birthday (Some b)))%pym.

Definition show_birthday (self : t) : str :=
  match birthday self with
  | Some b => value b
  | None => lit "Birthday not set"
  end.

(** [__str__]. *)
Definition to_str (self : t) : str :=
  lit "Contact name: " ++ value (name self) ++ lit ", phones: "
  ++ join (lit "; ") (map value (phones self)).

End Record.

(** An entry of the list [get_upcoming_birthdays] returns: the dict with
    the keys ["name"] and ["birthday"]. *)
Record user : Type := mkUser { user_name : str; user_birthday : date }.

Module AddressBook.

(** [self.data]: a dict, which keeps its keys in insertion order. *)
Definition t : Type := list (str * Record.t).

(** [self.data[key] = record]. *)
Fixpoint setitem (key : str) (record : Record.t) (data : t) : t :=
  match data with
  | [] => [(key, record)]
  | (k, r) :: rest =>
      if str_eqb k key then (k, record) :: rest
      else (k, r) :: setitem key record rest
  end.

Definition add_record (record : Record.t) (self : t) : t :=
  setitem (value (Record.name record)) record self.

Fixpoint find (name : str) (self : t) : option Record.t :=
  match self with
  | [] => None
  | (k, r) :: rest => if str_eqb k name then Some r else find name rest
  end.

Definition delete (name : str) (self : t) : t :=
  filter (fun kr => negb (str_eqb (fst kr) name)) self.

Definition values (self : t) : list Record.t := map snd self.

(** The loop of [get_upcoming_birthdays] over the records that remain,
    with the list built so far. *)
Fixpoint upcoming_loop (today : date) (records : list Record.t)
  (upcoming_birthdays : list user) : result (list user) :=
  match records with
  | [] => Ok upcoming_birthdays
  | record :: rest =>
      match Record.birthday record with
      | Some b =>
          birthday_date <- strptime (value b) ;;
          birthday_date <- replace_year birthday_date (year today) ;;
          birthday_date <-
            (if ltb birthday_date today
             then replace_year birthday_date (year today + 1)
             else Ok birthday_date) ;;
          upcoming_loop today rest
            (upcoming_birthdays
             ++ [mkUser (value (Record.name record)) birthday_date])
      | None => upcoming_loop today rest upcoming_birthdays
      end
  end.

(** [today] stands for the value [date.today()] returns. *)
Definition get_upcoming_birthdays (today : date) (self : t)
  : result (list user) :=
  upcoming_loop today (values self) [].

End AddressBook.

(** What a command works on: the address book and the lines printed so
    far. *)
Record world : Type := mkWorld { book : AddressBook.t; stdout : list str }.

Definition print (line : str) : M world unit :=
  modify (fun w => mkWorld (book w) (stdout w ++ [line])).

(** Run a method on the record object stored under [key]: the book holds
    the object itself, so the method's effect is seen in the book. *)
Definition on_record {A} (key : str) (record : Record.t)
  (method : M Record.t A) : M world A :=
  fun w =>
    let (res, record') := method record in
    (res, mkWorld (AddressBook.setitem key record' (book w)) (stdout w)).

(** The body of the [for user in upcoming_birthdays] loop of
    [birthdays]. *)
Definition birthdays_body (user : user) : M world unit :=
  (let birthday := user_birthday user in
   birthday <-
     (if 5 <=? weekday birthday
      then lift (find_next_weekday birthday 0)
      else ret birthday) ;;
   print (user_name user ++ lit ": " ++ strftime birthday))%pym.

Definition birthdays (today : date) (args : list str) : M world object :=
  input_error
    (w <- get ;;
     upcoming_birthdays <-
       lift (AddressBook.get_upcoming_birthdays today (book w)) ;;
     match upcoming_birthdays with
     | _ :: _ =>
         print (lit "Upcoming birthdays within the next week:") ;;;
         for_each upcoming_birthdays birthdays_body ;;;
         ret ONone
     | [] =>
         print (lit "No upcoming birthdays within the next week.") ;;;
         ret ONone
     end)%pym.

Definition add_birthday (args : list str) : M world object :=
  input_error
    (match args with
     | [name; birthday] =>
         w <- get ;;
         match AddressBook.find name (book w) with
         | Some record =>
             on_record name record (Record.add_birthday birthday) ;;;
             ret (OStr (lit "Birthday added for " ++ name))
         | None => ret (OStr (lit "Contact not found"))
         end
     | _ => raise (ValueError "wrong number of values to unpack")
     end)%pym.

Definition show_birthday (args : list str) : M world object :=
  input_error
    (match args with
     | name :: _ =>
         w <- get ;;
         match AddressBook.find name (book w) with
         | Some record => ret (OStr (Record.show_birthday record))
         | None => ret (OStr (lit "Contact not found"))
         end
     | [] => raise (ValueError "not enough values to unpack")
     end)%pym.

Definition add_contact (args : list str) : M world object :=
  input_error
    (match args with
     | name :: phone :: _ =>
         w <- get ;;
         found <-
           match AddressBook.find name (book w) with
           | Some record => ret (record, lit "Contact update.")
           | None =>
               record <- lift (Record.init (OStr name)) ;;
               modify (fun w => mkWorld (AddressBook.add_record record (book w))
                                  (stdout w)) ;;;
               ret (record, lit "Contact added.")
           end ;;
         (match phone with
          | _ :: _ => on_record name (fst found) (Record.add_phone (OStr phone))
          | [] => ret tt
          end) ;;;
         ret (OStr (snd found))
     | _ => raise (ValueError "not enough values to unpack")
     end)%pym.

Definition change_phone (args : list str) : M world object :=
  input_error
    (match args with
     | [name; old_phone; new_phone] =>
         w <- get ;;
         match AddressBook.find name (book w) with
         | Some record =>
             on_record name record
               (Record.change_phone (OStr old_phone) (OStr new_phone)) ;;;
             ret (OStr (lit "Phone number changed for " ++ name))
         | None => ret (OStr (lit "Contact not found"))
         end
     | _ => raise (ValueError "wrong number of values to unpack")
     end)%pym.

(** [get_phone(self, name)], the decorated function of the module. *)
Definition get_phone (name : str) : M world object :=
  input_error
    (w <- get ;;
     match AddressBook.find name (book w) with
     | Some record => ret (OStr (Record.get_phone record))
     | None => ret (OStr (lit "Contact not found"))
     end)%pym.

(* ================================================================== *)
(** * Text of the command line                                         *)
(* ================================================================== *)

Module PyText.

(** Ranges of the code points [str.isspace] accepts; [str.split()] and
    [str.strip()] use the same set. *)
Definition WHITESPACE_RANGES : list (N * N) :=
  [(9, 13); (28, 32); (133, 133); (160, 160); (5760, 5760); (8192, 8202);
   (8232, 8233); (8239, 8239); (8287, 8287); (12288, 12288)]%N.

Definition isspace_char (c : N) : bool :=
  existsb (fun r => in_range (fst r) (snd r) c) WHITESPACE_RANGES.

(** [s.split()] reading on: [word] is the word being read. *)
Fixpoint split_from (word : str) (s : str) : list str :=
  match s with
  | [] => match word with [] => [] | _ :: _ => [word] end
  | c :: s' =>
      if isspace_char c then
        match word with
        | [] => split_from [] s'
        | _ :: _ => word :: split_from [] s'
        end
      else split_from (word ++ [c]) s'
  end.

(** [s.split()]: the words between runs of whitespace. *)
Definition split (s : str) : list str := split_from [] s.

Fixpoint lstrip (s : str) : str :=
  match s with
  | c :: s' => if isspace_char c then lstrip s' else s
  | [] => []
  end.

(** [s.strip()]. *)
Definition strip (s : str) : str := rev (lstrip (rev (lstrip s))).

(** [str(o)], as [print] applies it. *)
Definition str_of (o : object) : str :=
  match o with
  | OStr s => s
  | OInt z => lit (DecimalString.NilZero.string_of_int (Z.to_int z))
  | OBool true => lit "True"
  | OBool false => lit "False"
  | ONone => lit "None"
  end.

End PyText.

Import PyText.

(** How the loop of [main] ends: the command [close] or [exit], an
    exception no handler catches, or no line left to read. *)
Inductive ending : Type :=
| Exited
| Uncaught (e : exn)
| EndOfInput.

Section CommandLoop.

(** [str.lower] is taken as it is: nothing is assumed about it. *)
Variable lower : str -> str.

Definition parse_input (user_input : str) : result (str * list str) :=
  match split user_input with
  | cmd :: args => Ok (lower (strip cmd), args)
  | [] => Raise (ValueError "not enough values to unpack")
  end.

(** [print(handler(args, book))]: an exception of the handler leaves the
    loop. *)
Definition print_reply (handler : M world object) (w : world)
  : option exn * world :=
  match handler w with
  | (Ok reply, w') => (None, snd (print (str_of reply) w'))
  | (Raise e, w') => (Some e, w')
  end.

(** The [while True] loop of [main] on the lines [input] returns, each
    with the value of [date.today()] while it is handled. The lines written
    by [print] are recorded; the prompt of [input] is not. *)
Fixpoint main_loop (inputs : list (date * str)) (w : world)
  : ending * world :=
  match inputs with
  | [] => (EndOfInput, w)
  | (today, user_input) :: rest =>
      match parse_input user_input with
      | Raise e => (Uncaught e, w)
      | Ok (command, args) =>
          let reply handler :=
            match print_reply handler w with
            | (None, w') => main_loop rest w'
            | (Some e, w') => (Uncaught e, w')
            end in
          if str_eqb command (lit "close") || str_eqb command (lit "exit")
          then (Exited, snd (print (lit "Good bye!") w))
          else if str_eqb command (lit "hello")
          then main_loop rest (snd (print (lit "How can I help you?") w))
          else if str_eqb command (lit "add")
          then reply (add_contact args)
          else if str_eqb command (lit "change")
          then reply (change_phone args)
          else if str_eqb command (lit "phone")
          then
            match args with
            | [] =>
                main_loop rest
                  (snd (print (lit "Please provide the name of the contact.")
                          w))
            | name :: _ =>
                match AddressBook.find name (book w) with
                | Some record =>
                    main_loop rest (snd (print (Record.get_phone record) w))
                | None =>
                    main_loop rest (snd (print (lit "Contact not found") w))
                end
            end
          else if str_eqb command (lit "all")
          then
            main_loop rest
              (snd (for_each (AddressBook.values (book w))
                      (fun record => print (Record.to_str record)) w))
          else if str_eqb command (lit "add-birthday")
          then reply (add_birthday args)
          else if str_eqb command (lit "show-birthday")
          then reply (show_birthday args)
          else if str_eqb command (lit "birthdays")
          then
            match birthdays today args w with
            | (Ok _, w') => main_loop rest w'
            | (Raise e, w') => (Uncaught e, w')
            end
          else main_loop rest (snd (print (lit "Invalid command.") w))
      end
  end.

(** [main], from the book [load_data] returns to the book [save_data] is
    given in the [finally] clause: the book of the world it ends in. *)
Definition main (loaded : AddressBook.t) (inputs : list (date * str))
  : ending * world :=
  main_loop inputs
    (snd (print (lit "Welcome to the assistant bot!") (mkWorld loaded []))).

End CommandLoop.

(* ================================================================== *)
(** * Auxiliary definitions for the proofs                             *)
(* ================================================================== *)

Module DatetimeAux.

(** The month and day part of [ord2ymd], for a day number [n] within a
    year whose leap status is [leapyear]. *)
Definition month_day (leapyear : bool) (n : Z) : Z * Z :=
  let month := Z.shiftr (n + 50) 5 in
  let preceding :=
    nth (Z.to_nat month) DAYS_BEFORE_MONTH 0
    + (if (2 <? month) && leapyear then 1 else 0) in
  if n <? preceding then
    let month := month - 1 in
    let preceding :=
      preceding
      - (nth (Z.to_nat month) DAYS_IN_MONTH 0
         + (if (month =? 2) && leapyear then 1 else 0)) in
    (month, n - preceding + 1)
  else (month, n - preceding + 1).

Definition dim (leap : bool) (m : Z) : Z :=
  if (m =? 2) && leap then 29 else nth (Z.to_nat m) DAYS_IN_MONTH 0.

Definition dbm (leap : bool) (m : Z) : Z :=
  nth (Z.to_nat m) DAYS_BEFORE_MONTH 0
  + (if (2 <? m) && leap then 1 else 0).

Definition month_day_okb (leap : bool) (n : Z) : bool :=
  let '(m, d) := month_day leap n in
  (1 <=? m) && (m <=? 12) && (1 <=? d) && (d <=? dim leap m)
  && (dbm leap m + d =? n + 1).

Fixpoint forallb_below (k : nat) (f : Z -> bool) : bool :=
  match k with
  | O => true
  | S k' => f (Z.of_nat k') && forallb_below k' f
  end.

(** The alternatives of one group of [re_match], tried in order, with
    [k] matching the groups that follow. *)
Fixpoint first_alt (k : str -> option (list str * str))
  (alts : list (list char_class)) (s : str) : option (list str * str) :=
  match alts with
  | [] => None
  | a :: alts' =>
      match take a s with
      | Some (cap, rest) =>
          match k rest with
          | Some (caps, r) => Some (cap :: caps, r)
          | None => first_alt k alts' s
          end
      | None => first_alt k alts' s
      end
  end.

End DatetimeAux.

Import DatetimeAux.

(* ================================================================== *)
(** * Definitions used to state the properties                         *)
(* ================================================================== *)

(** [if record.birthday:] a field object is always true, [None] is not. *)
Definition has_birthday (record : Record.t) : bool :=
  match Record.birthday record with Some _ => true | None => false end.

(** The candidate date in the words of the specification: the birthday
    with its year replaced by today's year and, exactly when that date is
    strictly earlier than today, with today's year + 1 instead. *)
Definition reanchor_spec (today B : date) : date :=
  let candidate := Datetime.mk (year today) (month B) (day B) in
  if ltb candidate today
  then Datetime.mk (year today + 1) (month B) (day B)
  else candidate.

(** The entry [u] is the one the specification gives for the record [r]:
    the record's name, and the stored birthday re-anchored. *)
Definition reanchored (today : date) (r : Record.t) (u : user) : Prop :=
  user_name u = value (Record.name r)
  /\ exists b B, Record.birthday r = Some b /\ strptime (value b) = Ok B
                 /\ user_birthday u = reanchor_spec today B.

(** The body of the loop of [get_upcoming_birthdays], for one stored
    birthday. *)
Definition candidate_of (today B : date) : result date :=
  birthday_date <- replace_year B (year today) ;;
  if ltb birthday_date today
  then replace_year birthday_date (year today + 1)
  else Ok birthday_date.

(** The entry [u] is what the loop appends for the record [r]. *)
Definition entry_of (today : date) (r : Record.t) (u : user) : Prop :=
  user_name u = value (Record.name r)
  /\ exists b B, Record.birthday r = Some b /\ strptime (value b) = Ok B
                 /\ candidate_of today B = Ok (user_birthday u).

(** The line the [birthdays] command prints for an entry shows [d]: the
    Monday [find_next_weekday] gives for a Saturday or Sunday candidate,
    the candidate itself otherwise. *)
Definition displayed (u : user) (line : str) : Prop :=
  exists d, line = user_name u ++ lit ": " ++ strftime d
    /\ (5 <= weekday (user_birthday u) ->
        find_next_weekday (user_birthday u) 0 = Ok d /\ weekday d = 0
        /\ sub_days d (user_birthday u) = 7 - weekday (user_birthday u))
    /\ (weekday (user_birthday u) <= 4 -> d = user_birthday u).

(** A phone as [Phone] accepts it: ten digits. *)
Definition phone_ok (p : Field) : Prop :=
  len (value p) = 10 /\ Forall (fun c => isdigit_char c = true) (value p).

(** A stored birthday reads as a date that falls on Monday to Friday. *)
Definition birthday_ok (b : Field) : Prop :=
  exists B, strptime (value b) = Ok B /\ 0 <= weekday B <= 4.

Definition record_ok (r : Record.t) : Prop :=
  Forall phone_ok (Record.phones r)
  /\ (forall b, Record.birthday r = Some b -> birthday_ok b).

(** A well-formed book: the keys are distinct, every record is stored
    under its own name, and every record is well formed. *)
Definition book_ok (data : AddressBook.t) : Prop :=
  NoDup (map fst data)
  /\ Forall (fun kr => fst kr = value (Record.name (snd kr))
                       /\ record_ok (snd kr)) data.

(** A line without a word: every character is whitespace. *)
Definition blank (s : str) : Prop :=
  Forall (fun c => isspace_char c = true) s.

(** [a] is a prefix of [b]. *)
Definition prefix_of {A} (a b : list A) : Prop := exists c, b = a ++ c.

(** The body of a handler, run in the world [w], returns a string or
    raises ValueError, prints nothing and keeps a well-formed book well
    formed. *)
Definition handled (body : M world object) (w : world) : Prop :=
  ((exists t, fst (body w) = Ok (OStr t))
   \/ (exists msg, fst (body w) = Raise (ValueError msg)))
  /\ stdout (snd (body w)) = stdout w
  /\ (book_ok (book w) -> book_ok (book (snd (body w)))).

(** A word of a line: not empty, and without whitespace. *)
Definition word_ok (t : str) : Prop :=
  t <> [] /\ Forall (fun c => isspace_char c = false) t.

(** What holds of a run [r] of the loop of [main] on [inputs] from the
    world [w]: the only exception that ends it is the ValueError of a line
    without a word; a well-formed book stays well formed; the lines printed
    before are still there, with more after them. *)
Definition session_ok (inputs : list (date * str)) (w : world)
  (r : ending * world) : Prop :=
  (forall e, fst r = Uncaught e ->
             e = ValueError "not enough values to unpack"
             /\ Exists (fun i => blank (snd i)) inputs)
  /\ (book_ok (book w) -> book_ok (book (snd r)))
  /\ prefix_of (stdout w) (stdout (snd r)).

(* ================================================================== *)
(** * Facts about the calendar                                         *)
(* ================================================================== *)

Module DatetimeFacts.

Ltac zeuclid := Z.div_mod_to_equations; lia.

Lemma days_before_year_digits q400 q100 q4 q1 :
  0 <= q100 <= 3 -> 0 <= q4 <= 24 -> 0 <= q1 <= 3 ->
  days_before_year (400 * q400 + 100 * q100 + 4 * q4 + q1 + 1)
  = DI400Y * q400 + DI100Y * q100 + DI4Y * q4 + 365 * q1.
Proof.
  intros H100 H4 H1. unfold days_before_year, DI400Y, DI100Y, DI4Y.
  replace (400 * q400 + 100 * q100 + 4 * q4 + q1 + 1 - 1)
    with (400 * q400 + 100 * q100 + 4 * q4 + q1) by lia.
  assert ((400 * q400 + 100 * q100 + 4 * q4 + q1) / 4
          = 100 * q400 + 25 * q100 + q4) as -> by zeuclid.
  assert ((400 * q400 + 100 * q100 + 4 * q4 + q1) / 100
          = 4 * q400 + q100) as -> by zeuclid.
  assert ((400 * q400 + 100 * q100 + 4 * q4 + q1) / 400 = q400) as ->
      by zeuclid.
  lia.
Qed.

Lemma is_leap_digits q400 q100 q4 q1 :
  0 <= q100 <= 3 -> 0 <= q4 <= 24 -> 0 <= q1 <= 3 ->
  is_leap (400 * q400 + 100 * q100 + 4 * q4 + q1 + 1)
  = (q1 =? 3) && (negb (q4 =? 24) || (q100 =? 3)).
Proof.
  intros H100 H4 H1. unfold is_leap.
  set (y := 400 * q400 + 100 * q100 + 4 * q4 + q1 + 1).
  destruct (Z.eqb_spec q1 3) as [E1 | E1]; simpl.
  - assert (y mod 4 = 0) as -> by (subst y; zeuclid). simpl.
    destruct (Z.eqb_spec q4 24) as [E4 | E4]; simpl.
    + assert (y mod 100 = 0) as -> by (subst y; zeuclid). simpl.
      destruct (Z.eqb_spec q100 3) as [E100 | E100].
      * assert (y mod 400 = 0) as -> by (subst y; zeuclid). reflexivity.
      * destruct (Z.eqb_spec (y mod 400) 0) as [E | E]; [|reflexivity].
        exfalso. subst y. revert E. zeuclid.
    + destruct (Z.eqb_spec (y mod 100) 0) as [E | E]; [|reflexivity].
      exfalso. subst y. revert E. zeuclid.
  - destruct (Z.eqb_spec (y mod 4) 0) as [E | E]; [|reflexivity].
    exfalso. subst y. revert E. zeuclid.
Qed.

Lemma forallb_below_spec k f :
  forallb_below k f = true ->
  forall n, 0 <= n < Z.of_nat k -> f n = true.
Proof.
  induction k as [|k IH]; simpl; intros H n Hn; [lia|].
  apply andb_true_iff in H as [Hk Hall].
  destruct (Z.eq_dec n (Z.of_nat k)) as [-> | Hne]; [exact Hk|].
  apply IH; [exact Hall | lia].
Qed.

Lemma month_day_ok leap n :
  0 <= n < 365 ->
  let '(m, d) := month_day leap n in
  1 <= m <= 12 /\ 1 <= d <= dim leap m /\ dbm leap m + d = n + 1.
Proof.
  intros Hn.
  assert (month_day_okb leap n = true) as H.
  { apply (@forallb_below_spec 365 (month_day_okb leap)); [|exact Hn].
    destruct leap; vm_compute; reflexivity. }
  unfold month_day_okb in H. destruct (month_day leap n) as [m d].
  repeat (apply andb_true_iff in H as [H ?]).
  lia.
Qed.

Lemma ord2ymd_unfold n :
  ord2ymd n =
  let n0 := n - 1 in
  let q400 := n0 / DI400Y in
  let r400 := n0 mod DI400Y in
  let q100 := r400 / DI100Y in
  let r100 := r400 mod DI100Y in
  let q4 := r100 / DI4Y in
  let r4 := r100 mod DI4Y in
  let q1 := r4 / 365 in
  let r1 := r4 mod 365 in
  let y := 400 * q400 + 100 * q100 + 4 * q4 + q1 + 1 in
  if (q1 =? 4) || (q100 =? 4) then (y - 1, 12, 31)
  else
    let '(m, d) :=
      month_day ((q1 =? 3) && (negb (q4 =? 24) || (q100 =? 3))) r1 in
    (y, m, d).
Proof.
  unfold ord2ymd, month_day. cbv zeta.
  set (q400 := (n - 1) / DI400Y). set (r400 := (n - 1) mod DI400Y).
  set (q100 := r400 / DI100Y). set (r100 := r400 mod DI100Y).
  set (q4 := r100 / DI4Y). set (r4 := r100 mod DI4Y).
  set (q1 := r4 / 365). set (r1 := r4 mod 365).
  replace (q400 * 400 + 1 + q100 * 100 + q4 * 4 + q1)
    with (400 * q400 + 100 * q100 + 4 * q4 + q1 + 1) by lia.
  destruct ((q1 =? 4) || (q100 =? 4)); [reflexivity|].
  match goal with |- context [if ?c then _ else _] => destruct c end;
    reflexivity.
Qed.

Lemma ymd2ord_dbm y m d :
  ymd2ord y m d = days_before_year y + dbm (is_leap y) m + d.
Proof. reflexivity. Qed.

Lemma days_in_month_dim y m : days_in_month y m = dim (is_leap y) m.
Proof. reflexivity. Qed.

(** Every ordinal in range denotes a valid date whose ordinal it is. *)
Lemma ord2ymd_ymd2ord n :
  1 <= n <= MAXORDINAL ->
  let '(y, m, d) := ord2ymd n in
  ymd2ord y m d = n
  /\ MINYEAR <= y <= MAXYEAR /\ 1 <= m <= 12 /\ 1 <= d <= days_in_month y m.
Proof.
  intros Hn. rewrite ord2ymd_unfold. cbv zeta.
  set (q400 := (n - 1) / DI400Y). set (r400 := (n - 1) mod DI400Y).
  set (q100 := r400 / DI100Y). set (r100 := r400 mod DI100Y).
  set (q4 := r100 / DI4Y). set (r4 := r100 mod DI4Y).
  set (q1 := r4 / 365). set (r1 := r4 mod 365).
  assert (n - 1 = DI400Y * q400 + DI100Y * q100 + DI4Y * q4 + 365 * q1 + r1
          /\ 0 <= q400 <= 24 /\ 0 <= r400 < DI400Y
          /\ 0 <= q100 <= 4 /\ 0 <= r100 < DI100Y
          /\ 0 <= q4 <= 24 /\ 0 <= r4 < DI4Y
          /\ 0 <= q1 <= 4 /\ 0 <= r1 < 365
          /\ (q100 = 4 -> q4 = 0 /\ q1 = 0 /\ r1 = 0)
          /\ (q1 = 4 -> r1 = 0 /\ q4 <= 23 /\ q100 <= 3)
          /\ (q400 = 24 -> 100 * q100 + 4 * q4 + q1 < 399)) as Hdec.
  { subst q400 r400 q100 r100 q4 r4 q1 r1.
    unfold DI400Y, DI100Y, DI4Y, MAXORDINAL in *. zeuclid. }
  destruct Hdec as (Hsum & H400 & Hr400 & H100 & Hr100 & H4 & Hr4 & H1
                    & Hr1 & Hc & Hq & Htop).
  clearbody q400 r400 q100 r100 q4 r4 q1 r1.
  destruct (Z.eqb_spec q1 4) as [E1 | E1]; simpl orb.
  - (* last day of a leap year that closes a four-year group *)
    destruct (Hq E1) as (-> & Hq4 & Hq100). subst q1.
    replace (400 * q400 + 100 * q100 + 4 * q4 + 4 + 1 - 1)
      with (400 * q400 + 100 * q100 + 4 * q4 + 3 + 1) by lia.
    rewrite ymd2ord_dbm, days_in_month_dim,
      days_before_year_digits, is_leap_digits by lia.
    replace (q4 =? 24) with false by (symmetry; apply Z.eqb_neq; lia).
    change (dbm _ 12) with 335. change (dim _ 12) with 31.
    unfold MINYEAR, MAXYEAR, DI400Y, DI100Y, DI4Y in *. lia.
  - destruct (Z.eqb_spec q100 4) as [E100 | E100]; simpl orb.
    + (* last day of a 400-year cycle *)
      destruct (Hc E100) as (-> & -> & ->). subst q100.
      replace (400 * q400 + 100 * 4 + 4 * 0 + 0 + 1 - 1)
        with (400 * q400 + 100 * 3 + 4 * 24 + 3 + 1) by lia.
      rewrite ymd2ord_dbm, days_in_month_dim,
        days_before_year_digits, is_leap_digits by lia.
      change (dbm _ 12) with 335. change (dim _ 12) with 31.
      unfold MINYEAR, MAXYEAR, DI400Y, DI100Y, DI4Y in *. lia.
    + pose proof (@month_day_ok
                    ((q1 =? 3) && (negb (q4 =? 24) || (q100 =? 3))) r1 Hr1)
        as Hmd.
      destruct (month_day _ r1) as [m d].
      rewrite ymd2ord_dbm, days_in_month_dim,
        days_before_year_digits, is_leap_digits by lia.
      unfold MINYEAR, MAXYEAR, DI400Y, DI100Y, DI4Y in *. lia.
Qed.

Lemma valid_iff d :
  valid d <->
  MINYEAR <= year d <= MAXYEAR /\ 1 <= month d <= 12
  /\ 1 <= day d <= days_in_month (year d) (month d).
Proof.
  unfold valid, validb. rewrite !andb_true_iff, !Z.leb_le. tauto.
Qed.

Lemma new_ok_iff y m d x :
  new y m d = Ok x <-> x = mk y m d /\ valid (mk y m d).
Proof.
  unfold new. rewrite valid_iff. simpl.
  repeat match goal with
         | |- context [Z.leb ?a ?b] => destruct (Z.leb_spec a b)
         end; simpl;
    (split;
     [ intros Hnew; inversion Hnew; subst; (split; [reflexivity | lia])
     | intros [-> Hv]; try reflexivity; lia ]).
Qed.

Lemma fromordinal_valid n :
  1 <= n <= MAXORDINAL -> valid (fromordinal n).
Proof.
  intros Hn. pose proof (ord2ymd_ymd2ord Hn) as H.
  unfold fromordinal. destruct (ord2ymd n) as [[y m] d].
  apply valid_iff. simpl. tauto.
Qed.

Lemma toordinal_fromordinal n :
  1 <= n <= MAXORDINAL -> toordinal (fromordinal n) = n.
Proof.
  intros Hn. pose proof (ord2ymd_ymd2ord Hn) as H.
  unfold fromordinal, toordinal. destruct (ord2ymd n) as [[y m] d].
  simpl. tauto.
Qed.

Ltac month_cases m :=
  let H := fresh "Hm" in
  assert (m = 1 \/ m = 2 \/ m = 3 \/ m = 4 \/ m = 5 \/ m = 6 \/ m = 7
          \/ m = 8 \/ m = 9 \/ m = 10 \/ m = 11 \/ m = 12) as H by lia;
  repeat (destruct H as [H | H]); subst m.

Lemma days_before_year_succ y :
  days_before_year (y + 1)
  = days_before_year y + 365 + (if is_leap y then 1 else 0).
Proof.
  unfold days_before_year, is_leap. cbv zeta.
  destruct (Z.eqb_spec (y mod 4) 0), (Z.eqb_spec (y mod 100) 0),
    (Z.eqb_spec (y mod 400) 0); simpl; zeuclid.
Qed.

Lemma days_before_year_mono y y' :
  y <= y' -> days_before_year y <= days_before_year y'.
Proof.
  unfold days_before_year. cbv zeta. intros H.
  assert ((y - 1) / 4 <= (y' - 1) / 4) by zeuclid.
  assert ((y - 1) / 400 <= (y' - 1) / 400) by zeuclid.
  assert ((y' - 1) / 100 - (y - 1) / 100 <= y' - y) by zeuclid.
  lia.
Qed.

(** Evaluate the month tables at closed arguments. *)
Ltac eval_tables :=
  repeat match goal with
    | |- context [dim ?l ?m] =>
        let v := eval vm_compute in (dim l m) in
        change (dim l m) with v
    | |- context [dbm ?l ?m] =>
        let v := eval vm_compute in (dbm l m) in
        change (dbm l m) with v
    | H : context [dim ?l ?m] |- _ =>
        let v := eval vm_compute in (dim l m) in
        change (dim l m) with v in H
    | H : context [dbm ?l ?m] |- _ =>
        let v := eval vm_compute in (dbm l m) in
        change (dbm l m) with v in H
    end.

Lemma day_of_year_bounds leap m d :
  1 <= m <= 12 -> 1 <= d <= dim leap m ->
  1 <= dbm leap m + d <= 365 + (if leap then 1 else 0).
Proof.
  intros Hm Hd. month_cases m; destruct leap; eval_tables; lia.
Qed.

Lemma dbm_next leap m m' :
  1 <= m -> m < m' -> m' <= 12 ->
  dbm leap m + dim leap m <= dbm leap m'.
Proof.
  intros H1 H2 H3.
  month_cases m; month_cases m'; try lia; destruct leap; eval_tables; lia.
Qed.

(** The order of dates is the order of their ordinals. *)
Lemma toordinal_lt a b :
  valid a -> valid b -> ltb a b = true -> toordinal a < toordinal b.
Proof.
  rewrite !valid_iff. unfold ltb, toordinal.
  destruct a as [ya ma da], b as [yb mb db]. simpl.
  rewrite !days_in_month_dim, !ymd2ord_dbm.
  intros (Hya & Hma & Hda) (Hyb & Hmb & Hdb) H.
  pose proof (day_of_year_bounds (is_leap ya) Hma Hda).
  pose proof (day_of_year_bounds (is_leap yb) Hmb Hdb).
  apply orb_true_iff in H as [H | H].
  - apply Z.ltb_lt in H.
    pose proof (days_before_year_succ ya).
    pose proof (@days_before_year_mono (ya + 1) yb ltac:(lia)). lia.
  - apply andb_true_iff in H as [Hy H]. apply Z.eqb_eq in Hy. subst yb.
    apply orb_true_iff in H as [H | H].
    + apply Z.ltb_lt in H.
      pose proof (@dbm_next (is_leap ya) ma mb ltac:(lia) H ltac:(lia)).
      lia.
    + apply andb_true_iff in H as [Hm H]. apply Z.eqb_eq in Hm.
      apply Z.ltb_lt in H. subst mb. lia.
Qed.

Lemma ltb_trichotomy a b : ltb a b = true \/ a = b \/ ltb b a = true.
Proof.
  destruct a as [ya ma da], b as [yb mb db]. unfold ltb. simpl.
  destruct (Z.lt_total ya yb) as [H | [H | H]].
  - left. apply Z.ltb_lt in H. rewrite H. reflexivity.
  - subst yb. rewrite Z.ltb_irrefl, Z.eqb_refl. simpl.
    destruct (Z.lt_total ma mb) as [H | [H | H]].
    + left. apply Z.ltb_lt in H. rewrite H. reflexivity.
    + subst mb. rewrite Z.ltb_irrefl, Z.eqb_refl. simpl.
      destruct (Z.lt_total da db) as [H | [H | H]].
      * left. apply Z.ltb_lt. exact H.
      * right. left. congruence.
      * right. right. apply Z.ltb_lt. exact H.
    + right. right. apply Z.ltb_lt in H. rewrite H. reflexivity.
  - right. right. apply Z.ltb_lt in H. rewrite H. reflexivity.
Qed.

Lemma toordinal_inj a b :
  valid a -> valid b -> toordinal a = toordinal b -> a = b.
Proof.
  intros Ha Hb E. destruct (ltb_trichotomy a b) as [H | [H | H]].
  - pose proof (toordinal_lt Ha Hb H). lia.
  - exact H.
  - pose proof (toordinal_lt Hb Ha H). lia.
Qed.

Lemma toordinal_range d : valid d -> 1 <= toordinal d <= MAXORDINAL.
Proof.
  intros Hd. pose proof Hd as Hv. apply valid_iff in Hv.
  destruct Hv as (Hy & Hm & Hday). unfold toordinal.
  rewrite ymd2ord_dbm. rewrite days_in_month_dim in Hday.
  pose proof (day_of_year_bounds (is_leap (year d)) Hm Hday).
  pose proof (days_before_year_succ (year d)).
  pose proof (@days_before_year_mono 1 (year d) ltac:(unfold MINYEAR in *; lia)).
  pose proof (@days_before_year_mono (year d + 1) 10000
                ltac:(unfold MAXYEAR in *; lia)).
  change (days_before_year 1) with 0 in *.
  change (days_before_year 10000) with 3652059 in *.
  unfold MAXORDINAL. lia.
Qed.

Lemma fromordinal_toordinal d : valid d -> fromordinal (toordinal d) = d.
Proof.
  intros Hd. pose proof (toordinal_range Hd) as Hr.
  apply toordinal_inj; [apply fromordinal_valid; exact Hr | exact Hd |].
  apply toordinal_fromordinal. exact Hr.
Qed.

Lemma weekday_range d : 0 <= weekday d <= 6.
Proof. unfold weekday. zeuclid. Qed.

(** Adding days moves the ordinal by as much, when the result is a date. *)
Lemma add_days_ok d k :
  valid d -> 1 <= toordinal d + k <= MAXORDINAL ->
  exists d', add_days d k = Ok d' /\ valid d'
             /\ toordinal d' = toordinal d + k.
Proof.
  intros Hd Hk. unfold add_days. cbv zeta.
  replace ((0 <? toordinal d + k) && (toordinal d + k <=? MAXORDINAL))
    with true
    by (symmetry; apply andb_true_iff; split;
        [apply Z.ltb_lt | apply Z.leb_le]; lia).
  eexists. split; [reflexivity|]. split.
  - apply fromordinal_valid. exact Hk.
  - apply toordinal_fromordinal. exact Hk.
Qed.

Lemma add_days_0 d : valid d -> add_days d 0 = Ok d.
Proof.
  intros Hd. pose proof (toordinal_range Hd) as Hr.
  unfold add_days. cbv zeta. rewrite Z.add_0_r.
  replace ((0 <? toordinal d) && (toordinal d <=? MAXORDINAL)) with true
    by (symmetry; apply andb_true_iff; split;
        [apply Z.ltb_lt | apply Z.leb_le]; lia).
  rewrite fromordinal_toordinal by exact Hd. reflexivity.
Qed.

Lemma add_days_overflow d k :
  MAXORDINAL < toordinal d + k ->
  add_days d k = Raise (OverflowError "date value out of range").
Proof.
  intros Hk. unfold add_days. cbv zeta.
  replace (toordinal d + k <=? MAXORDINAL) with false
    by (symmetry; apply Z.leb_gt; lia).
  rewrite andb_false_r. reflexivity.
Qed.

End DatetimeFacts.

Import DatetimeFacts.

(* ================================================================== *)
(** * Weekday shifting                                                 *)
(* ================================================================== *)

Section WeekdayShift.

Variable D : date.
Hypothesis D_valid : valid D.

(** The number of days [find_next_weekday] adds. *)
Lemma find_next_weekday_days_ahead W :
  0 <= W <= 6 ->
  find_next_weekday D W = add_days D ((W - weekday D) mod 7).
Proof.
  intros HW. pose proof (weekday_range D) as Hwd.
  unfold find_next_weekday, timedelta. cbv zeta.
  assert ((if W - weekday D <? 0 then W - weekday D + 7 else W - weekday D)
          = (W - weekday D) mod 7) as ->
      by (destruct (Z.ltb_spec (W - weekday D) 0); zeuclid).
  pose proof (Z.mod_pos_bound (W - weekday D) 7 ltac:(lia)).
  replace (Z.abs ((W - weekday D) mod 7) <=? 999999999) with true
    by (symmetry; apply Z.leb_le; lia).
  reflexivity.
Qed.

Lemma find_next_weekday_in_range W :
  0 <= W <= 6 ->
  toordinal D + (W - weekday D) mod 7 <= MAXORDINAL ->
  exists R, find_next_weekday D W = Ok R /\ valid R
            /\ toordinal R = toordinal D + (W - weekday D) mod 7.
Proof.
  intros HW Hmax. rewrite find_next_weekday_days_ahead by exact HW.
  apply add_days_ok; [exact D_valid|].
  pose proof (toordinal_range D_valid).
  pose proof (Z.mod_pos_bound (W - weekday D) 7 ltac:(lia)). lia.
Qed.

(** What [adjust_birthday] does on each day of the week: a Saturday
    moves to the Tuesday and a Sunday to the Wednesday that follow, three
    days later; the other days stay. *)
Lemma adjust_birthday_cases :
  exists R, adjust_birthday D = Ok R /\ valid R
    /\ (weekday D = 5 -> sub_days R D = 3 /\ weekday R = 1)
    /\ (weekday D = 6 -> sub_days R D = 3 /\ weekday R = 2)
    /\ (weekday D <= 4 -> R = D).
Proof.
  pose proof (weekday_range D) as Hwd.
  pose proof (toordinal_range D_valid) as Hord.
  unfold adjust_birthday.
  destruct (Z.eqb_spec (weekday D) 5) as [E5 | N5];
    [|destruct (Z.eqb_spec (weekday D) 6) as [E6 | N6]].
  - destruct (@find_next_weekday_in_range 1) as (R & HR & HvR & HoR);
      [lia | unfold weekday, MAXORDINAL in *; zeuclid |].
    exists R. split; [exact HR|]. split; [exact HvR|].
    unfold sub_days, weekday in *. rewrite HoR.
    repeat split; intros; try lia; zeuclid.
  - destruct (@find_next_weekday_in_range 2) as (R & HR & HvR & HoR);
      [lia | unfold weekday, MAXORDINAL in *; zeuclid |].
    exists R. split; [exact HR|]. split; [exact HvR|].
    unfold sub_days, weekday in *. rewrite HoR.
    repeat split; intros; try lia; zeuclid.
  - exists D. split; [reflexivity|]. split; [exact D_valid|].
    repeat split; intros; lia.
Qed.

End WeekdayShift.


(** C4, as the code has it: for every date D and every weekday W in 0..6,
    when the next day of the week W on or after D is no later than
    [date.max] (9999-12-31), [find_next_weekday D W] returns a date whose
    weekday is W, that lies 0 to 6 days after D, and that is D itself when
    D already falls on W; when that day would be later than [date.max],
    the call raises OverflowError. *)
Theorem find_next_weekday_correct (D : date) (W : Z) :
  valid D -> 0 <= W <= 6 ->
  (toordinal D + (W - weekday D) mod 7 <= MAXORDINAL
   /\ exists R, find_next_weekday D W = Ok R /\ valid R /\ weekday R = W
                /\ 0 <= sub_days R D <= 6
                /\ (weekday D = W -> R = D))
  \/ (MAXORDINAL < toordinal D + (W - weekday D) mod 7
      /\ find_next_weekday D W
         = Raise (OverflowError "date value out of range")).
Proof.
  intros HD HW.
  destruct (Z.le_gt_cases (toordinal D + (W - weekday D) mod 7) MAXORDINAL)
    as [Hin | Hout].
  - left. split; [exact Hin|].
    destruct (find_next_weekday_in_range HD HW Hin) as (R & HR & HvR & HoR).
    exists R. split; [exact HR|]. split; [exact HvR|].
    pose proof (weekday_range D) as Hwd.
    split; [|split].
    + unfold weekday in *. rewrite HoR. zeuclid.
    + unfold sub_days. rewrite HoR.
      pose proof (Z.mod_pos_bound (W - weekday D) 7 ltac:(lia)). lia.
    + intros E. apply toordinal_inj; [exact HvR | exact HD |].
      rewrite HoR, E, Z.sub_diag. change (0 mod 7) with 0. lia.
  - right. split; [lia|].
    rewrite find_next_weekday_days_ahead by assumption.
    apply add_days_overflow. lia.
Qed.

Lemma find_next_weekday_correct_witness :
  (toordinal (Datetime.mk 2024 9 14)
   + (0 - weekday (Datetime.mk 2024 9 14)) mod 7 <= MAXORDINAL
   /\ exists R, find_next_weekday (Datetime.mk 2024 9 14) 0 = Ok R
                /\ valid R /\ weekday R = 0
                /\ 0 <= sub_days R (Datetime.mk 2024 9 14) <= 6
                /\ (weekday (Datetime.mk 2024 9 14) = 0
                    -> R = Datetime.mk 2024 9 14))
  \/ (MAXORDINAL < toordinal (Datetime.mk 2024 9 14)
                   + (0 - weekday (Datetime.mk 2024 9 14)) mod 7
      /\ find_next_weekday (Datetime.mk 2024 9 14) 0
         = Raise (OverflowError "date value out of range")).
Proof.
  apply (@find_next_weekday_correct (Datetime.mk 2024 9 14) 0);
    [reflexivity | lia].
Defined.

(** C4 as stated fails at D = 9999-12-31 (a Friday) and W = 0: the Monday
    that follows is not a date, and the call raises instead of returning. *)
Lemma find_next_weekday_no_result_at_date_max :
  valid (Datetime.mk 9999 12 31) /\ 0 <= 0 <= 6
  /\ find_next_weekday (Datetime.mk 9999 12 31) 0
     = Raise (OverflowError "date value out of range")
  /\ ~ (exists R, find_next_weekday (Datetime.mk 9999 12 31) 0 = Ok R
                  /\ weekday R = 0
                  /\ 0 <= sub_days R (Datetime.mk 9999 12 31) <= 6).
Proof.
  assert (find_next_weekday (Datetime.mk 9999 12 31) 0
          = Raise (OverflowError "date value out of range")) as E
      by (vm_compute; reflexivity).
  split; [reflexivity|]. split; [lia|]. split; [exact E|].
  intros (R & HR & _). rewrite E in HR. discriminate HR.
Qed.

(** C1 at the raw birthday 14.09.2024, a Saturday: the code returns
    17.09.2024, the Tuesday three days later, and that is the birthday
    [Record.add_birthday] stores; the Monday 16.09.2024 is not returned. *)
Theorem adjust_birthday_saturday_14_09_2024 :
  weekday (Datetime.mk 2024 9 14) = 5
  /\ adjust_birthday (Datetime.mk 2024 9 14) = Ok (Datetime.mk 2024 9 17)
  /\ weekday (Datetime.mk 2024 9 17) = 1
  /\ sub_days (Datetime.mk 2024 9 17) (Datetime.mk 2024 9 14) = 3
  /\ adjust_birthday (Datetime.mk 2024 9 14) <> Ok (Datetime.mk 2024 9 16)
  /\ Record.add_birthday (lit "14.09.2024")
       (Record.mk (mkField (lit "Alice")) [] None)
     = (Ok tt,
        Record.mk (mkField (lit "Alice")) []
          (Some (mkField (lit "17.09.2024")))).
Proof.
  assert (adjust_birthday (Datetime.mk 2024 9 14)
          = Ok (Datetime.mk 2024 9 17)) as E by (vm_compute; reflexivity).
  repeat split; try (vm_compute; reflexivity).
  rewrite E. discriminate.
Qed.

(** C5: for every date D, [adjust_birthday D] returns a date that is
    neither a Saturday nor a Sunday; it is D itself when D falls on Monday
    to Friday; and adjusting the result again returns it unchanged. *)
Theorem adjust_birthday_weekday_idempotent (D : date) :
  valid D ->
  exists R, adjust_birthday D = Ok R /\ valid R
            /\ weekday R <> 5 /\ weekday R <> 6
            /\ (0 <= weekday D <= 4 -> R = D)
            /\ adjust_birthday R = Ok R.
Proof.
  intros HD. pose proof (weekday_range D) as Hwd.
  destruct (adjust_birthday_cases HD) as (R & HR & HvR & Hsat & Hsun & Hwk).
  assert (weekday R <= 4) as HwR.
  { destruct (Z.eq_dec (weekday D) 5) as [E5 | N5]; [apply Hsat in E5; lia|].
    destruct (Z.eq_dec (weekday D) 6) as [E6 | N6]; [apply Hsun in E6; lia|].
    rewrite (Hwk ltac:(lia)). lia. }
  exists R. split; [exact HR|]. split; [exact HvR|].
  split; [lia|]. split; [lia|]. split; [intros; apply Hwk; lia|].
  destruct (adjust_birthday_cases HvR) as (R' & HR' & _ & _ & _ & Hsame).
  rewrite HR'. f_equal. apply Hsame. exact HwR.
Qed.

Lemma adjust_birthday_weekday_idempotent_witness :
  exists R, adjust_birthday (Datetime.mk 2024 9 15) = Ok R /\ valid R
            /\ weekday R <> 5 /\ weekday R <> 6
            /\ (0 <= weekday (Datetime.mk 2024 9 15) <= 4
                -> R = Datetime.mk 2024 9 15)
            /\ adjust_birthday R = Ok R.
Proof.
  apply (@adjust_birthday_weekday_idempotent (Datetime.mk 2024 9 15)).
  reflexivity.
Defined.

(* ================================================================== *)
(** * Fields                                                           *)
(* ================================================================== *)

Lemma isdigit_iff (s : str) :
  isdigit s = true <-> s <> [] /\ Forall (fun c => isdigit_char c = true) s.
Proof.
  unfold isdigit. destruct s as [|c s].
  - split; [discriminate | intros [H _]; congruence].
  - rewrite forallb_forall, Forall_forall. split.
    + intros H. split; [discriminate | exact H].
    + intros [_ H]. exact H.
Qed.

Lemma Phone_ok_iff (o : object) (f : Field) :
  Phone o = Ok f <->
  exists s, o = OStr s /\ f = mkField s /\ len s = 10
            /\ Forall (fun c => isdigit_char c = true) s.
Proof.
  unfold Phone. destruct o as [s | z | b |];
    try (split; [discriminate | intros (s & E & _); discriminate E]).
  destruct (isdigit s) eqn:Hd; simpl.
  - apply isdigit_iff in Hd as [_ Hall].
    destruct (Z.eqb_spec (len s) 10) as [Hl | Hl]; simpl.
    + split.
      * intros [= <-]. exists s. auto.
      * intros (s' & [= <-] & -> & _). reflexivity.
    + split; [discriminate|].
      intros (s' & [= <-] & _ & Hl' & _). contradiction.
  - split; [discriminate|].
    intros (s' & [= <-] & _ & Hl & Hall). exfalso.
    assert (isdigit s = true) as Hd'; [|congruence].
    apply isdigit_iff. split; [|exact Hall].
    intros ->. discriminate Hl.
Qed.

Lemma Phone_raises_ValueError (o : object) :
  (exists f, Phone o = Ok f) \/ (exists msg, Phone o = Raise (ValueError msg)).
Proof.
  unfold Phone. destruct o as [s | z | b |]; try (right; eexists; reflexivity).
  destruct (isdigit s); simpl; [|right; eexists; reflexivity].
  destruct (len s =? 10); simpl; [left | right]; eexists; reflexivity.
Qed.

(** Below 128 the digits of [str.isdigit] are the characters 0 to 9. *)
Lemma isdigit_char_ascii (c : N) :
  (c < 128)%N -> isdigit_char c = is_ascii_digit c.
Proof.
  intros Hc.
  assert (forallb (fun n => Bool.eqb (isdigit_char (N.of_nat n))
                              (is_ascii_digit (N.of_nat n)))
            (seq 0 128) = true) as Hall by (vm_compute; reflexivity).
  rewrite forallb_forall in Hall.
  specialize (Hall (N.to_nat c)). rewrite N2Nat.id in Hall.
  apply Bool.eqb_prop, Hall, in_seq. lia.
Qed.

(** C7, as the code has it: a Phone is constructed exactly from a [str]
    of 10 characters that are all digits in the sense of [str.isdigit]
    (Unicode digits, not only ASCII ones); every other value is refused
    with ValueError; among the strings of ASCII characters the accepted
    ones are exactly those of 10 ASCII digits. *)
Theorem Phone_validation (o : object) :
  (forall f, Phone o = Ok f <->
             exists s, o = OStr s /\ f = mkField s /\ len s = 10
                       /\ Forall (fun c => isdigit_char c = true) s)
  /\ ((forall f, Phone o <> Ok f) ->
      exists msg, Phone o = Raise (ValueError msg))
  /\ (forall s, o = OStr s -> Forall (fun c => (c < 128)%N) s ->
      ((exists f, Phone o = Ok f) <->
       len s = 10 /\ Forall (fun c => is_ascii_digit c = true) s)).
Proof.
  split; [intros f; apply Phone_ok_iff|]. split.
  - intros Hno. destruct (Phone_raises_ValueError o) as [[f Hf] | H].
    + destruct (Hno f Hf).
    + exact H.
  - intros s -> Hascii.
    assert (Forall (fun c => isdigit_char c = true) s
            <-> Forall (fun c => is_ascii_digit c = true) s) as Hsame.
    { rewrite !Forall_forall in *. split; intros H c Hin.
      - rewrite <- isdigit_char_ascii by auto. auto.
      - rewrite isdigit_char_ascii by auto. auto. }
    split.
    + intros [f Hf]. apply Phone_ok_iff in Hf as (s' & [= <-] & _ & Hl & Hd).
      split; [exact Hl | apply Hsame; exact Hd].
    + intros [Hl Hd]. exists (mkField s). apply Phone_ok_iff.
      exists s. repeat split; [exact Hl | apply Hsame; exact Hd].
Qed.

(** C7 as stated fails on a string of ten Arabic-Indic digits (U+0661 to
    U+0669, then U+0660): it has no ASCII digit, and a Phone is constructed
    from it. *)
Lemma Phone_accepts_non_ascii_digits :
  Phone (OStr [1633; 1634; 1635; 1636; 1637; 1638; 1639; 1640; 1641; 1632]%N)
  = Ok (mkField
          [1633; 1634; 1635; 1636; 1637; 1638; 1639; 1640; 1641; 1632]%N)
  /\ existsb is_ascii_digit
       [1633; 1634; 1635; 1636; 1637; 1638; 1639; 1640; 1641; 1632]%N
     = false
  /\ ~ (forall s, is_ok (Phone (OStr s)) = true <->
                  len s = 10 /\ forallb is_ascii_digit s = true).
Proof.
  split; [vm_compute; reflexivity|]. split; [vm_compute; reflexivity|].
  intros H.
  specialize
    (H [1633; 1634; 1635; 1636; 1637; 1638; 1639; 1640; 1641; 1632]%N).
  destruct H as [H _]. specialize (H eq_refl). destruct H as [_ H].
  vm_compute in H. discriminate H.
Qed.

(** C8, as the code has it: a Name is constructed exactly from a [str],
    the empty one included; every value that is not a [str] is refused with
    ValueError. *)
Theorem Name_validation (o : object) :
  (forall f, Name o = Ok f <-> exists s, o = OStr s /\ f = mkField s)
  /\ (isinstance_str o = false ->
      Name o = Raise (ValueError "Name must be a string")).
Proof.
  split.
  - intros f. destruct o as [s | z | b |]; simpl;
      try (split; [discriminate | intros (s & E & _); discriminate E]).
    split.
    + intros [= <-]. exists s. auto.
    + intros (s' & [= <-] & ->). reflexivity.
  - destruct o; simpl; intros H; [discriminate H | reflexivity ..].
Qed.

(** C8 as stated fails on the empty string: a Name, and a contact record
    with that name, are constructed from it, and the record is stored. *)
Lemma Name_accepts_empty_string :
  Name (OStr []) = Ok (mkField [])
  /\ Record.init (OStr []) = Ok (Record.mk (mkField []) [] None)
  /\ AddressBook.find []
       (AddressBook.add_record (Record.mk (mkField []) [] None) [])
     = Some (Record.mk (mkField []) [] None)
  /\ ~ (forall o, o = OStr [] \/ isinstance_str o = false ->
                  is_ok (Name o) = false).
Proof.
  repeat split; try reflexivity.
  intros H. specialize (H (OStr []) (or_introl eq_refl)). discriminate H.
Qed.

(* ================================================================== *)
(** * Records                                                          *)
(* ================================================================== *)

(** C10: for every record and strings old and new, with new a valid phone,
    [change_phone] succeeds and leaves the phones different from old, in
    their order, followed by new; name and birthday stay. When old is not
    among the phones, none is removed, new is appended and the list is one
    longer. *)
Theorem change_phone_removes_then_appends
  (self : Record.t) (old_phone new_phone : str) (p : Field) :
  Phone (OStr new_phone) = Ok p ->
  let kept :=
    filter (fun q => negb (str_eqb (value q) old_phone)) (Record.phones self)
  in
  Record.change_phone (OStr old_phone) (OStr new_phone) self
  = (Ok tt,
     Record.mk (Record.name self) (kept ++ [mkField new_phone])
       (Record.birthday self))
  /\ (forall q, In q kept <-> In q (Record.phones self) /\ value q <> old_phone)
  /\ ((forall q, In q (Record.phones self) -> value q <> old_phone) ->
      kept = Record.phones self
      /\ List.length (kept ++ [mkField new_phone])
         = S (List.length (Record.phones self))).
Proof.
  intros Hp kept.
  assert (p = mkField new_phone) as ->.
  { apply Phone_ok_iff in Hp as (s & [= <-] & -> & _). reflexivity. }
  assert (forall q, negb (str_eqb (value q) old_phone) = true
                    <-> value q <> old_phone) as Hneq.
  { intros q. unfold str_eqb.
    destruct (list_eq_dec N.eq_dec (value q) old_phone); simpl;
      split; congruence. }
  split; [|split].
  - cbv beta iota delta [Record.change_phone Record.remove_phone
                            Record.add_phone mbind modify lift].
    rewrite Hp. reflexivity.
  - intros q. unfold kept. rewrite filter_In, Hneq. reflexivity.
  - intros Hnone.
    assert (kept = Record.phones self) as E.
    { unfold kept. clear kept. induction (Record.phones self) as [|q qs IH];
        [reflexivity|].
      simpl. replace (negb (str_eqb (value q) old_phone)) with true
        by (symmetry; apply Hneq, Hnone; left; reflexivity).
      f_equal. apply IH. intros q' Hq'. apply Hnone. right. exact Hq'. }
    split; [exact E|]. rewrite E, length_app. simpl. lia.
Qed.

Lemma change_phone_removes_then_appends_witness :
  let self :=
    Record.mk (mkField (lit "Alice")) [mkField (lit "1234567890")] None in
  let kept :=
    filter (fun q => negb (str_eqb (value q) (lit "5555555555")))
      (Record.phones self)
  in
  Record.change_phone (OStr (lit "5555555555")) (OStr (lit "0987654321")) self
  = (Ok tt,
     Record.mk (Record.name self) (kept ++ [mkField (lit "0987654321")])
       (Record.birthday self))
  /\ (forall q, In q kept <->
                In q (Record.phones self) /\ value q <> lit "5555555555")
  /\ ((forall q, In q (Record.phones self) -> value q <> lit "5555555555") ->
      kept = Record.phones self
      /\ List.length (kept ++ [mkField (lit "0987654321")])
         = S (List.length (Record.phones self))).
Proof.
  intros self.
  apply (@change_phone_removes_then_appends self (lit "5555555555")
           (lit "0987654321") (mkField (lit "0987654321"))).
  vm_compute. reflexivity.
Defined.

(* ================================================================== *)
(** * Upcoming birthdays                                               *)
(* ================================================================== *)

Lemma strptime_valid (s : str) (B : date) : strptime s = Ok B -> valid B.
Proof.
  unfold strptime. intros H.
  repeat match type of H with
         | match ?x with _ => _ end = _ => destruct x; try discriminate H
         end.
  apply new_ok_iff in H as [-> Hv]. exact Hv.
Qed.

Lemma strptime_raises_ValueError (s : str) (e : exn) :
  strptime s = Raise e -> exists msg, e = ValueError msg.
Proof.
  unfold strptime, new. intros H.
  repeat match type of H with
         | match ?x with _ => _ end = _ => destruct x
         | (if ?c then _ else _) = _ => destruct c
         end;
    inversion H; eexists; reflexivity.
Qed.

Lemma replace_year_ok (B : date) (y : Z) (c : date) :
  replace_year B y = Ok c <->
  c = Datetime.mk y (month B) (day B)
  /\ valid (Datetime.mk y (month B) (day B)).
Proof. unfold replace_year. apply new_ok_iff. Qed.

Lemma replace_year_raises_ValueError (B : date) (y : Z) (e : exn) :
  replace_year B y = Raise e -> exists msg, e = ValueError msg.
Proof.
  unfold replace_year, new. intros H.
  repeat match type of H with
         | (if ?c then _ else _) = _ => destruct c
         end;
    inversion H; eexists; reflexivity.
Qed.

(** Re-anchoring a leap day to a year that is not a leap year is refused. *)
Lemma replace_year_leap_day (B : date) (y : Z) :
  month B = 2 -> day B = 29 -> is_leap y = false ->
  MINYEAR <= y <= MAXYEAR ->
  replace_year B y = Raise (ValueError "day is out of range for month").
Proof.
  intros Hm Hd Hleap Hy. unfold replace_year, new, days_in_month.
  rewrite Hm, Hd, Hleap.
  replace ((MINYEAR <=? y) && (y <=? MAXYEAR)) with true
    by (symmetry; apply andb_true_iff; split; apply Z.leb_le; lia).
  reflexivity.
Qed.

(** A day of the month that is not 29 February exists in every year. *)
Lemma valid_other_year (B : date) (y : Z) :
  valid B -> ~ (month B = 2 /\ day B = 29) -> MINYEAR <= y <= MAXYEAR ->
  valid (Datetime.mk y (month B) (day B)).
Proof.
  rewrite !valid_iff. simpl. intros (_ & Hm & Hd) Hnot Hy.
  split; [exact Hy|]. split; [exact Hm|].
  rewrite days_in_month_dim in *. revert Hm Hd Hnot.
  generalize (day B) as d. generalize (month B) as m. intros m d Hm Hd Hnot.
  split; [lia|].
  month_cases m; destruct (is_leap (year B)), (is_leap y); eval_tables; lia.
Qed.

Lemma candidate_of_ok (today B c : date) :
  candidate_of today B = Ok c ->
  c = reanchor_spec today B /\ valid c
  /\ valid (Datetime.mk (year today) (month B) (day B)).
Proof.
  unfold candidate_of, reanchor_spec. cbv zeta.
  destruct (replace_year B (year today)) as [c0 | e] eqn:E0; simpl;
    [|discriminate].
  apply replace_year_ok in E0 as [-> Hv0].
  destruct (ltb _ today).
  - intros H. apply replace_year_ok in H as [-> Hv]. simpl in *. auto.
  - intros [= <-]. auto.
Qed.

Lemma candidate_of_total (today B : date) :
  valid today -> year today < MAXYEAR -> valid B ->
  ~ (month B = 2 /\ day B = 29) ->
  exists c, candidate_of today B = Ok c.
Proof.
  intros Ht Hy HB Hnot. apply valid_iff in Ht as (Hyt & _).
  unfold candidate_of.
  pose proof (@valid_other_year B (year today) HB Hnot Hyt) as Hv0.
  destruct (replace_year B (year today)) as [c0 | e] eqn:E0.
  - apply replace_year_ok in E0 as [-> _]. simpl.
    destruct (ltb _ today); [|eexists; reflexivity].
    pose proof (@valid_other_year B (year today + 1) HB Hnot
                  ltac:(unfold MINYEAR in *; lia)) as Hv1.
    eexists. apply replace_year_ok. simpl. split; [reflexivity | exact Hv1].
  - exfalso.
    assert (replace_year B (year today)
            = Ok (Datetime.mk (year today) (month B) (day B))) as E
        by (apply replace_year_ok; auto).
    congruence.
Qed.

Lemma candidate_of_raises_ValueError (today B : date) (e : exn) :
  candidate_of today B = Raise e -> exists msg, e = ValueError msg.
Proof.
  unfold candidate_of.
  destruct (replace_year B (year today)) as [c0 | e0] eqn:E0; simpl.
  - destruct (ltb c0 today); [|discriminate].
    apply replace_year_raises_ValueError.
  - intros [= <-]. apply (replace_year_raises_ValueError _ _ E0).
Qed.

Lemma upcoming_loop_step (today : date) (r : Record.t) (rest : list Record.t)
  (acc : list user) :
  AddressBook.upcoming_loop today (r :: rest) acc
  = match Record.birthday r with
    | Some b =>
        B <- strptime (value b) ;;
        c <- candidate_of today B ;;
        AddressBook.upcoming_loop today rest
          (acc ++ [mkUser (value (Record.name r)) c])
    | None => AddressBook.upcoming_loop today rest acc
    end.
Proof.
  simpl. destruct (Record.birthday r) as [b|]; [|reflexivity].
  destruct (strptime (value b)) as [B | e]; [|reflexivity]. simpl.
  unfold candidate_of.
  destruct (replace_year B (year today)) as [c0 | e0]; reflexivity.
Qed.

(** A run of the loop that ends normally has appended one entry for each
    record with a birthday, in the order of the records. *)
Lemma upcoming_loop_ok (today : date) (records : list Record.t) :
  forall acc entries,
    AddressBook.upcoming_loop today records acc = Ok entries ->
    exists added, entries = acc ++ added
                  /\ Forall2 (entry_of today) (filter has_birthday records)
                       added.
Proof.
  induction records as [|r rest IH]; intros acc entries H.
  - simpl in H. injection H as <-. exists []. rewrite app_nil_r.
    split; [reflexivity | constructor].
  - rewrite upcoming_loop_step in H.
    change (filter has_birthday (r :: rest))
      with (if has_birthday r then r :: filter has_birthday rest
            else filter has_birthday rest).
    unfold has_birthday at 1.
    destruct (Record.birthday r) as [b|] eqn:Eb.
    + destruct (strptime (value b)) as [B | e] eqn:EB; [|discriminate H].
      simpl in H.
      destruct (candidate_of today B) as [c | e] eqn:Ec; [|discriminate H].
      simpl in H. apply IH in H as (added & -> & Hall).
      exists (mkUser (value (Record.name r)) c :: added).
      rewrite <- app_assoc. split; [reflexivity|].
      constructor; [|exact Hall].
      split; [reflexivity|]. exists b, B. auto.
    + apply IH in H. exact H.
Qed.

Lemma upcoming_loop_total (today : date) (records : list Record.t) :
  Forall (fun r => forall b, Record.birthday r = Some b ->
                   exists B c, strptime (value b) = Ok B
                               /\ candidate_of today B = Ok c) records ->
  forall acc, exists entries,
    AddressBook.upcoming_loop today records acc = Ok entries.
Proof.
  induction 1 as [|r rest Hr _ IH]; intros acc.
  - exists acc. reflexivity.
  - rewrite upcoming_loop_step.
    destruct (Record.birthday r) as [b|]; [|apply IH].
    destruct (Hr b eq_refl) as (B & c & -> & Hc). simpl.
    rewrite Hc. simpl. apply IH.
Qed.

Lemma upcoming_loop_raises_ValueError (today : date)
  (records : list Record.t) :
  forall acc e,
    AddressBook.upcoming_loop today records acc = Raise e ->
    exists msg, e = ValueError msg.
Proof.
  induction records as [|r rest IH]; intros acc e H.
  - discriminate H.
  - rewrite upcoming_loop_step in H.
    destruct (Record.birthday r) as [b|]; [|apply (IH _ _ H)].
    destruct (strptime (value b)) as [B | e0] eqn:EB; simpl in H.
    + destruct (candidate_of today B) as [c | e1] eqn:Ec; simpl in H.
      * apply (IH _ _ H).
      * injection H as <-. apply (candidate_of_raises_ValueError _ _ Ec).
    + injection H as <-. apply (strptime_raises_ValueError _ EB).
Qed.

Lemma entry_of_reanchored (today : date) (r : Record.t) (u : user) :
  entry_of today r u -> reanchored today r u /\ valid (user_birthday u).
Proof.
  intros (Hn & b & B & Hb & HB & Hc).
  apply candidate_of_ok in Hc as (Hc & Hv & _).
  split; [|exact Hv]. split; [exact Hn|]. exists b, B. auto.
Qed.

Lemma Forall2_weaken {A B} (P Q : A -> B -> Prop) (l : list A) (l' : list B) :
  (forall a b, P a b -> Q a b) -> Forall2 P l l' -> Forall2 Q l l'.
Proof. intros HPQ H. induction H; constructor; auto. Qed.

(** C3: for every contact with a stored birthday that reads as the date
    B, the entry [get_upcoming_birthdays] returns for it carries B with its
    year replaced by today's year, or by today's year + 1 exactly when the
    former date is strictly earlier than today; the call returns such a
    list whenever no stored birthday is a 29 February and next year is
    still a year of the calendar. With today = 2024-12-28 a birthday stored
    as 02.01.1990 is reported as 2025-01-02, five days ahead. *)
Theorem get_upcoming_birthdays_reanchors (today : date)
  (book : AddressBook.t) :
  valid today ->
  (forall entries,
      AddressBook.get_upcoming_birthdays today book = Ok entries ->
      Forall2 (reanchored today)
        (filter has_birthday (AddressBook.values book)) entries)
  /\ (year today < MAXYEAR ->
      Forall (fun r => forall b, Record.birthday r = Some b ->
                       exists B, strptime (value b) = Ok B
                                 /\ ~ (month B = 2 /\ day B = 29))
        (AddressBook.values book) ->
      exists entries,
        AddressBook.get_upcoming_birthdays today book = Ok entries)
  /\ (let jan2 :=
        Record.mk (mkField (lit "Alice")) []
          (Some (mkField (lit "02.01.1990"))) in
      AddressBook.get_upcoming_birthdays (Datetime.mk 2024 12 28)
        [(lit "Alice", jan2)]
      = Ok [mkUser (lit "Alice") (Datetime.mk 2025 1 2)]
      /\ reanchor_spec (Datetime.mk 2024 12 28) (Datetime.mk 1990 1 2)
         = Datetime.mk 2025 1 2
      /\ sub_days (Datetime.mk 2025 1 2) (Datetime.mk 2024 12 28) = 5).
Proof.
  intros Ht. split; [|split].
  - intros entries H. unfold AddressBook.get_upcoming_birthdays in H.
    apply upcoming_loop_ok in H as (added & -> & Hall). simpl.
    eapply Forall2_weaken; [|exact Hall].
    intros r u Hu. apply (entry_of_reanchored Hu).
  - intros Hy Hall. unfold AddressBook.get_upcoming_birthdays.
    apply upcoming_loop_total.
    eapply Forall_impl; [|exact Hall].
    intros r Hr b Hb. destruct (Hr b Hb) as (B & HB & Hnot).
    destruct (@candidate_of_total today B Ht Hy (strptime_valid _ HB) Hnot)
      as [c Hc].
    exists B, c. auto.
  - cbv zeta. repeat split; vm_compute; reflexivity.
Qed.

Lemma get_upcoming_birthdays_reanchors_witness :
  let today := Datetime.mk 2024 12 28 in
  let book :=
    [(lit "Alice",
      Record.mk (mkField (lit "Alice")) []
        (Some (mkField (lit "02.01.1990"))))] in
  (forall entries,
      AddressBook.get_upcoming_birthdays today book = Ok entries ->
      Forall2 (reanchored today)
        (filter has_birthday (AddressBook.values book)) entries)
  /\ (year today < MAXYEAR ->
      Forall (fun r => forall b, Record.birthday r = Some b ->
                       exists B, strptime (value b) = Ok B
                                 /\ ~ (month B = 2 /\ day B = 29))
        (AddressBook.values book) ->
      exists entries,
        AddressBook.get_upcoming_birthdays today book = Ok entries).
Proof.
  intros today book.
  destruct (@get_upcoming_birthdays_reanchors today book eq_refl)
    as (H1 & H2 & _).
  split; [exact H1 | exact H2].
Defined.

(** C9: when a contact's stored birthday is a 29 February and today's
    year is not a leap year, re-anchoring that birthday to today's year is
    refused with ValueError, and [get_upcoming_birthdays] raises ValueError:
    it returns no list, so no date such as 28 February or 1 March is put
    in the birthday's place. *)
Theorem get_upcoming_birthdays_leap_day_raises (today : date)
  (book : AddressBook.t) (r : Record.t) (b : Field) (B : date) :
  valid today -> is_leap (year today) = false ->
  In r (AddressBook.values book) ->
  Record.birthday r = Some b -> strptime (value b) = Ok B ->
  month B = 2 -> day B = 29 ->
  replace_year B (year today)
  = Raise (ValueError "day is out of range for month")
  /\ (exists msg, AddressBook.get_upcoming_birthdays today book
                  = Raise (ValueError msg))
  /\ (forall entries,
         AddressBook.get_upcoming_birthdays today book <> Ok entries).
Proof.
  intros Ht Hleap Hin Hb HB Hm Hd.
  pose proof Ht as Hy. apply valid_iff in Hy as (Hy & _).
  assert (replace_year B (year today)
          = Raise (ValueError "day is out of range for month")) as Hrep
      by (apply replace_year_leap_day; assumption).
  assert (forall entries,
             AddressBook.get_upcoming_birthdays today book <> Ok entries)
    as Hno.
  { intros entries H. unfold AddressBook.get_upcoming_birthdays in H.
    apply upcoming_loop_ok in H as (added & _ & Hall).
    assert (In r (filter has_birthday (AddressBook.values book))) as Hin'.
    { apply filter_In. split; [exact Hin|].
      unfold has_birthday. rewrite Hb. reflexivity. }
    revert Hin'. induction Hall as [|r' u rs us Hu _ IH]; intros Hin'.
    - destruct Hin'.
    - destruct Hin' as [-> | Hin']; [|apply IH; exact Hin'].
      destruct Hu as (_ & b' & B' & Hb' & HB' & Hc).
      rewrite Hb in Hb'. injection Hb' as <-.
      rewrite HB in HB'. injection HB' as <-.
      unfold candidate_of in Hc. rewrite Hrep in Hc. discriminate Hc. }
  split; [exact Hrep|]. split; [|exact Hno].
  destruct (AddressBook.get_upcoming_birthdays today book) as [l | e] eqn:E.
  - destruct (Hno l eq_refl).
  - destruct (upcoming_loop_raises_ValueError _ _ _ E) as [msg ->].
    exists msg. reflexivity.
Qed.

Lemma get_upcoming_birthdays_leap_day_raises_witness :
  replace_year (Datetime.mk 2024 2 29) 2025
  = Raise (ValueError "day is out of range for month")
  /\ (exists msg,
         AddressBook.get_upcoming_birthdays (Datetime.mk 2025 2 20)
           [(lit "Bob",
             Record.mk (mkField (lit "Bob")) []
               (Some (mkField (lit "29.02.2024"))))]
         = Raise (ValueError msg))
  /\ (forall entries,
         AddressBook.get_upcoming_birthdays (Datetime.mk 2025 2 20)
           [(lit "Bob",
             Record.mk (mkField (lit "Bob")) []
               (Some (mkField (lit "29.02.2024"))))]
         <> Ok entries).
Proof.
  apply (@get_upcoming_birthdays_leap_day_raises
           (Datetime.mk 2025 2 20)
           [(lit "Bob",
             Record.mk (mkField (lit "Bob")) []
               (Some (mkField (lit "29.02.2024"))))]
           (Record.mk (mkField (lit "Bob")) []
              (Some (mkField (lit "29.02.2024"))))
           (mkField (lit "29.02.2024")) (Datetime.mk 2024 2 29));
    try reflexivity.
  left. reflexivity.
Defined.

(** C2 on a book built by the commands, with today = 2024-06-10:
    [get_upcoming_birthdays] returns an entry for Alice, whose candidate
    2024-06-17 is 7 days after today, and one for Bob, whose candidate
    2024-12-25 is 198 days after today, and the [birthdays] command prints
    both under the heading of the birthdays within the next week. *)
Theorem get_upcoming_birthdays_has_no_window :
  let today := Datetime.mk 2024 6 10 in
  let w1 := snd (add_contact [lit "Alice"; lit "1234567890"] (mkWorld [] [])) in
  let w2 := snd (add_birthday [lit "Alice"; lit "17.06.2024"] w1) in
  let w3 := snd (add_contact [lit "Bob"; lit "0987654321"] w2) in
  let w4 := snd (add_birthday [lit "Bob"; lit "25.12.1990"] w3) in
  AddressBook.get_upcoming_birthdays today (book w4)
  = Ok [mkUser (lit "Alice") (Datetime.mk 2024 6 17);
        mkUser (lit "Bob") (Datetime.mk 2024 12 25)]
  /\ sub_days (Datetime.mk 2024 6 17) today = 7
  /\ sub_days (Datetime.mk 2024 12 25) today = 198
  /\ stdout (snd (birthdays today [] w4))
     = [lit "Upcoming birthdays within the next week:";
        lit "Alice: 17.06.2024"; lit "Bob: 25.12.2024"].
Proof. cbv zeta. repeat split; vm_compute; reflexivity. Qed.

(* ================================================================== *)
(** * The birthdays command                                            *)
(* ================================================================== *)

Lemma input_error_state {S} (func : M S object) (s : S) :
  snd (input_error func s) = snd (func s).
Proof.
  unfold input_error. destruct (func s) as [[a | [msg | msg | msg | msg]] s'];
    reflexivity.
Qed.

Lemma birthdays_body_book (u : user) (w : world) :
  book (snd (birthdays_body u w)) = book w.
Proof.
  unfold birthdays_body, mbind, lift, ret, print, modify. cbv zeta.
  destruct (5 <=? weekday (user_birthday u)); [|reflexivity].
  destruct (find_next_weekday (user_birthday u) 0); reflexivity.
Qed.

Lemma for_each_body_book (entries : list user) :
  forall w, book (snd (for_each entries birthdays_body w)) = book w.
Proof.
  induction entries as [|u rest IH]; intros w; [reflexivity|].
  simpl. unfold mbind at 1.
  pose proof (birthdays_body_book u w) as Hb.
  destruct (birthdays_body u w) as [[[] | e] w']; simpl in *.
  - rewrite IH. exact Hb.
  - exact Hb.
Qed.

(** A Saturday or Sunday that is a date is followed by a Monday that is a
    date too: [date.max] is a Friday. *)
Lemma find_next_weekday_monday (c : date) :
  valid c -> 5 <= weekday c ->
  exists d, find_next_weekday c 0 = Ok d /\ valid d /\ weekday d = 0
            /\ sub_days d c = 7 - weekday c.
Proof.
  intros Hc Hw. pose proof (weekday_range c) as Hr.
  pose proof (toordinal_range Hc) as Ho.
  assert ((0 - weekday c) mod 7 = 7 - weekday c) as Hmod
      by (unfold weekday in *; zeuclid).
  destruct (@find_next_weekday_in_range c Hc 0) as (d & Hd & Hvd & Hod);
    [lia | rewrite Hmod; unfold weekday, MAXORDINAL in *; zeuclid |].
  exists d. split; [exact Hd|]. split; [exact Hvd|].
  rewrite Hmod in Hod. unfold sub_days. rewrite Hod. split; [|lia].
  unfold weekday in *. rewrite Hod. zeuclid.
Qed.

Lemma birthdays_body_prints (u : user) (w : world) :
  valid (user_birthday u) ->
  exists line, birthdays_body u w = (Ok tt, mkWorld (book w) (stdout w ++ [line]))
               /\ displayed u line.
Proof.
  intros Hv. pose proof (weekday_range (user_birthday u)) as Hr.
  unfold birthdays_body, displayed. cbv zeta.
  destruct (Z.leb_spec 5 (weekday (user_birthday u))) as [Hw | Hw].
  - destruct (@find_next_weekday_monday (user_birthday u) Hv Hw)
      as (d & Hd & _ & Hwd & Hsub).
    exists (user_name u ++ lit ": " ++ strftime d). split.
    + unfold mbind, lift. rewrite Hd. reflexivity.
    + exists d. split; [reflexivity|]. split; [auto | lia].
  - exists (user_name u ++ lit ": " ++ strftime (user_birthday u)). split.
    + reflexivity.
    + exists (user_birthday u). split; [reflexivity|]. split; [lia | auto].
Qed.

Lemma for_each_body_prints (entries : list user) :
  Forall (fun u => valid (user_birthday u)) entries ->
  forall w, exists lines,
    for_each entries birthdays_body w
    = (Ok tt, mkWorld (book w) (stdout w ++ lines))
    /\ Forall2 displayed entries lines.
Proof.
  induction 1 as [|u rest Hu _ IH]; intros w.
  - exists []. rewrite app_nil_r. destruct w. split; [reflexivity | constructor].
  - destruct (@birthdays_body_prints u w Hu) as (line & Hline & Hd).
    destruct (IH (mkWorld (book w) (stdout w ++ [line])))
      as (lines & Hlines & Hall).
    exists (line :: lines). split; [|constructor; assumption].
    simpl. unfold mbind at 1. rewrite Hline, Hlines. simpl.
    rewrite <- app_assoc. reflexivity.
Qed.

Lemma get_upcoming_birthdays_valid (today : date) (data : AddressBook.t)
  (entries : list user) :
  AddressBook.get_upcoming_birthdays today data = Ok entries ->
  Forall (fun u => valid (user_birthday u)) entries.
Proof.
  intros H. unfold AddressBook.get_upcoming_birthdays in H.
  apply upcoming_loop_ok in H as (added & -> & Hall). simpl.
  induction Hall as [|r u rs us Hu _ IH]; constructor; [|exact IH].
  apply (entry_of_reanchored Hu).
Qed.

(** C6: when [get_upcoming_birthdays] returns entries, the [birthdays]
    command prints the heading and one line per entry, in order; the line
    of an entry whose candidate falls on a Saturday or Sunday shows the
    date [find_next_weekday candidate 0] returns, a Monday one or two days
    later, and the line of any other entry shows the candidate itself. In
    every case, an exception included, the address book after the command
    is the address book before it, so no stored birthday has changed. *)
Theorem birthdays_shift_for_display_only (today : date) (args : list str)
  (w : world) :
  book (snd (birthdays today args w)) = book w
  /\ (forall u entries,
         AddressBook.get_upcoming_birthdays today (book w)
         = Ok (u :: entries) ->
         exists lines,
           birthdays today args w
           = (Ok ONone,
              mkWorld (book w)
                (stdout w
                 ++ lit "Upcoming birthdays within the next week:" :: lines))
           /\ Forall2 displayed (u :: entries) lines).
Proof.
  split.
  - unfold birthdays. rewrite input_error_state.
    unfold mbind at 1. unfold get. unfold mbind at 1. unfold lift at 1.
    destruct (AddressBook.get_upcoming_birthdays today (book w))
      as [[|u entries] | e]; try reflexivity.
    unfold mbind at 1. unfold print at 1, modify at 1.
    unfold mbind at 1.
    pose proof (for_each_body_book (u :: entries)
                  (mkWorld (book w)
                     (stdout w
                      ++ [lit "Upcoming birthdays within the next week:"])))
      as Hb.
    destruct (for_each (u :: entries) birthdays_body _) as [[[] | e] w'];
      exact Hb.
  - intros u entries H.
    pose proof (get_upcoming_birthdays_valid _ _ H) as Hv.
    destruct (@for_each_body_prints (u :: entries) Hv
                (mkWorld (book w)
                   (stdout w
                    ++ [lit "Upcoming birthdays within the next week:"])))
      as (lines & Hlines & Hall).
    exists lines. split; [|exact Hall].
    unfold birthdays, input_error.
    unfold mbind at 1. unfold get. unfold mbind at 1. unfold lift at 1.
    rewrite H.
    unfold mbind at 1. unfold print at 1, modify at 1.
    unfold mbind at 1. rewrite Hlines. simpl.
    rewrite <- app_assoc. reflexivity.
Qed.

(* ================================================================== *)
(** * Reading back a written date                                      *)
(* ================================================================== *)

Lemma re_match_cons (alts : list (list char_class))
  (gs : list (list (list char_class))) (s : str) :
  re_match (alts :: gs) s = first_alt (re_match gs) alts s.
Proof.
  induction alts as [|a alts IH]; [reflexivity|].
  simpl. simpl in IH. rewrite IH. reflexivity.
Qed.

Lemma digit_decimal (k : Z) : decimal_value (digit k) = Some (k mod 10).
Proof.
  unfold digit. pose proof (Z.mod_pos_bound k 10 ltac:(lia)) as Hk.
  set (j := k mod 10) in *.
  assert (j = 0 \/ j = 1 \/ j = 2 \/ j = 3 \/ j = 4 \/ j = 5 \/ j = 6
          \/ j = 7 \/ j = 8 \/ j = 9) as Hj by lia.
  clearbody j.
  repeat (destruct Hj as [Hj | Hj]); subst j; vm_compute; reflexivity.
Qed.

Lemma digit_isdecimal (k : Z) : isdecimal_char (digit k) = true.
Proof. unfold isdecimal_char. rewrite digit_decimal. reflexivity. Qed.

Lemma int_of_zfill2 (n : Z) : 0 <= n <= 99 -> int_of (zfill2 n) = n.
Proof.
  intros Hn. unfold int_of, zfill2. cbn [fold_left].
  rewrite !digit_decimal. zeuclid.
Qed.

Lemma int_of_zfill4 (n : Z) : 0 <= n <= 9999 -> int_of (zfill4 n) = n.
Proof.
  intros Hn. unfold int_of, zfill4. cbn [fold_left].
  rewrite !digit_decimal. zeuclid.
Qed.

Lemma match_year (n : Z) :
  re_match [RE_Y] (zfill4 n) = Some ([zfill4 n], []).
Proof.
  rewrite re_match_cons. unfold RE_Y, zfill4, first_alt, take.
  rewrite !digit_isdecimal. reflexivity.
Qed.

Lemma match_dot (k : str -> option (list str * str)) (rest : str)
  (caps : list str) (r : str) :
  k rest = Some (caps, r) ->
  first_alt k RE_dot (lit "." ++ rest) = Some (lit "." :: caps, r).
Proof.
  intros H. cbv.
  destruct (k rest) as [[caps' r']|]; [|discriminate H].
  injection H as -> ->. reflexivity.
Qed.

Ltac upto31 n :=
  let H := fresh "Hn" in
  assert (n = 1 \/ n = 2 \/ n = 3 \/ n = 4 \/ n = 5 \/ n = 6 \/ n = 7 \/ n = 8 \/ n = 9 \/ n = 10 \/ n = 11 \/ n = 12 \/ n = 13 \/ n = 14 \/ n = 15 \/ n = 16 \/ n = 17 \/ n = 18 \/ n = 19 \/ n = 20 \/ n = 21 \/ n = 22 \/ n = 23 \/ n = 24 \/ n = 25 \/ n = 26 \/ n = 27 \/ n = 28 \/ n = 29 \/ n = 30 \/ n = 31) as H by lia;
  repeat (destruct H as [H | H]); subst n.

Lemma match_day (k : str -> option (list str * str)) (n : Z) (rest : str)
  (caps : list str) (r : str) :
  1 <= n <= 31 -> k rest = Some (caps, r) ->
  first_alt k RE_d (zfill2 n ++ rest) = Some (zfill2 n :: caps, r).
Proof.
  intros Hn H.
  upto31 n; try lia; cbv;
    (destruct (k rest) as [[caps' r']|]; [|discriminate H]);
    injection H as -> ->; reflexivity.
Qed.

Lemma match_month (k : str -> option (list str * str)) (n : Z) (rest : str)
  (caps : list str) (r : str) :
  1 <= n <= 12 -> k rest = Some (caps, r) ->
  first_alt k RE_m (zfill2 n ++ rest) = Some (zfill2 n :: caps, r).
Proof.
  intros Hn H.
  upto31 n; try lia; cbv;
    (destruct (k rest) as [[caps' r']|]; [|discriminate H]);
    injection H as -> ->; reflexivity.
Qed.

Lemma days_in_month_le_31 (y m : Z) : 1 <= m <= 12 -> days_in_month y m <= 31.
Proof.
  intros Hm. rewrite days_in_month_dim.
  month_cases m; destruct (is_leap y); eval_tables; lia.
Qed.

(** A date written by [strftime] is read back by [strptime]. *)
Lemma strptime_strftime (d : date) : valid d -> strptime (strftime d) = Ok d.
Proof.
  intros Hv. pose proof Hv as Hd. apply valid_iff in Hd as (Hy & Hm & Hd).
  pose proof (days_in_month_le_31 (year d) Hm) as H31.
  unfold MINYEAR, MAXYEAR in Hy.
  unfold strptime, strftime.
  rewrite re_match_cons.
  rewrite (@match_day _ (day d) _ [lit "."; zfill2 (month d); lit ".";
                                    zfill4 (year d)] []); [|lia|].
  - rewrite int_of_zfill4, !int_of_zfill2 by lia.
    apply new_ok_iff. destruct d. auto.
  - rewrite re_match_cons. apply match_dot.
    rewrite re_match_cons. apply match_month; [lia|].
    rewrite re_match_cons. apply match_dot.
    apply match_year.
Qed.

(* ================================================================== *)
(** * The address book as a dict                                       *)
(* ================================================================== *)

Lemma str_eqb_eq (a b : str) : str_eqb a b = true <-> a = b.
Proof.
  unfold str_eqb. destruct (list_eq_dec N.eq_dec a b); split; congruence.
Qed.

Lemma str_eqb_refl (a : str) : str_eqb a a = true.
Proof. apply str_eqb_eq. reflexivity. Qed.

Lemma str_eqb_neq (a b : str) : str_eqb a b = false <-> a <> b.
Proof.
  unfold str_eqb. destruct (list_eq_dec N.eq_dec a b); split; congruence.
Qed.

Lemma find_setitem_same (key : str) (r : Record.t) (data : AddressBook.t) :
  AddressBook.find key (AddressBook.setitem key r data) = Some r.
Proof.
  induction data as [|[k r0] rest IH]; simpl.
  - rewrite str_eqb_refl. reflexivity.
  - destruct (str_eqb k key) eqn:E; simpl; rewrite E; [reflexivity | exact IH].
Qed.

Lemma find_setitem_other (key key' : str) (r : Record.t)
  (data : AddressBook.t) :
  key' <> key ->
  AddressBook.find key' (AddressBook.setitem key r data)
  = AddressBook.find key' data.
Proof.
  intros Hne. induction data as [|[k r0] rest IH]; simpl.
  - replace (str_eqb key key') with false
      by (symmetry; apply str_eqb_neq; congruence).
    reflexivity.
  - destruct (str_eqb k key) eqn:E; simpl.
    + apply str_eqb_eq in E. subst k.
      replace (str_eqb key key') with false
        by (symmetry; apply str_eqb_neq; congruence).
      reflexivity.
    + destruct (str_eqb k key'); [reflexivity | exact IH].
Qed.

Lemma find_none_iff (key : str) (data : AddressBook.t) :
  AddressBook.find key data = None <-> ~ In key (map fst data).
Proof.
  induction data as [|[k r0] rest IH]; simpl.
  - tauto.
  - destruct (str_eqb k key) eqn:E.
    + apply str_eqb_eq in E. split; [discriminate | intros H; tauto].
    + apply str_eqb_neq in E. rewrite IH. tauto.
Qed.

Lemma find_some_in (key : str) (r : Record.t) (data : AddressBook.t) :
  AddressBook.find key data = Some r -> In (key, r) data.
Proof.
  induction data as [|[k r0] rest IH]; simpl; [discriminate|].
  destruct (str_eqb k key) eqn:E.
  - apply str_eqb_eq in E. intros [= ->]. left. congruence.
  - intros H. right. apply IH. exact H.
Qed.

Lemma setitem_keys (key : str) (r : Record.t) (data : AddressBook.t) :
  map fst (AddressBook.setitem key r data)
  = if in_dec (list_eq_dec N.eq_dec) key (map fst data)
    then map fst data
    else map fst data ++ [key].
Proof.
  induction data as [|[k r0] rest IH]; simpl; [reflexivity|].
  destruct (str_eqb k key) eqn:E.
  - apply str_eqb_eq in E. subst k. simpl.
    destruct (list_eq_dec N.eq_dec key key) as [Heq | Hne]; [|congruence].
    reflexivity.
  - apply str_eqb_neq in E. simpl. rewrite IH.
    destruct (list_eq_dec N.eq_dec k key) as [Heq | Hne]; [congruence|].
    destruct (in_dec (list_eq_dec N.eq_dec) key (map fst rest)); reflexivity.
Qed.

Lemma setitem_absent (key : str) (r : Record.t) (data : AddressBook.t) :
  ~ In key (map fst data) ->
  AddressBook.setitem key r data = data ++ [(key, r)].
Proof.
  induction data as [|[k r0] rest IH]; simpl; intros Hnot; [reflexivity|].
  replace (str_eqb k key) with false
    by (symmetry; apply str_eqb_neq; tauto).
  rewrite IH by tauto. reflexivity.
Qed.

Lemma setitem_Forall (P : str * Record.t -> Prop) (key : str)
  (r : Record.t) (data : AddressBook.t) :
  Forall P data -> P (key, r) -> Forall P (AddressBook.setitem key r data).
Proof.
  intros Hall Hr. induction Hall as [|[k r0] rest Hk Hrest IH]; simpl.
  - constructor; [exact Hr | constructor].
  - destruct (str_eqb k key) eqn:E.
    + apply str_eqb_eq in E. subst k. constructor; assumption.
    + constructor; assumption.
Qed.

Lemma setitem_book_ok (key : str) (r : Record.t) (data : AddressBook.t) :
  book_ok data -> key = value (Record.name r) -> record_ok r ->
  book_ok (AddressBook.setitem key r data).
Proof.
  intros [Hnd Hall] Hkey Hr. split.
  - rewrite setitem_keys.
    destruct (in_dec (list_eq_dec N.eq_dec) key (map fst data)) as [Hin | Hnot];
      [exact Hnd|].
    apply NoDup_app; [exact Hnd | constructor; [tauto | constructor] |].
    intros k Hk [<- | []]. contradiction.
  - apply setitem_Forall; [exact Hall | simpl; split; assumption].
Qed.

(** X1. Looking up the name of a record just stored returns that record,
    and the records stored under other names are found as before. *)
Theorem add_record_then_find (r : Record.t) (data : AddressBook.t)
  (other : str) :
  AddressBook.find (value (Record.name r)) (AddressBook.add_record r data)
  = Some r
  /\ (other <> value (Record.name r) ->
      AddressBook.find other (AddressBook.add_record r data)
      = AddressBook.find other data).
Proof.
  unfold AddressBook.add_record. split.
  - apply find_setitem_same.
  - apply find_setitem_other.
Qed.

(** X2. Storing a record under a name the book already has replaces the
    record in place: the names and their order stay. Under a new name it
    is added after all the others. *)
Theorem add_record_keeps_insertion_order (r : Record.t)
  (data : AddressBook.t) :
  (In (value (Record.name r)) (map fst data) ->
   map fst (AddressBook.add_record r data) = map fst data)
  /\ (~ In (value (Record.name r)) (map fst data) ->
      AddressBook.add_record r data = data ++ [(value (Record.name r), r)]).
Proof.
  unfold AddressBook.add_record. split.
  - intros Hin. rewrite setitem_keys.
    destruct (in_dec (list_eq_dec N.eq_dec) (value (Record.name r))
                (map fst data)); [reflexivity | contradiction].
  - apply setitem_absent.
Qed.

Lemma find_delete_other (name other : str) (data : AddressBook.t) :
  other <> name ->
  AddressBook.find other (AddressBook.delete name data)
  = AddressBook.find other data.
Proof.
  intros Hne. unfold AddressBook.delete.
  induction data as [|[k r0] rest IH]; simpl; [reflexivity|].
  destruct (str_eqb k name) eqn:E; simpl.
  - apply str_eqb_eq in E. subst k.
    replace (str_eqb name other) with false
      by (symmetry; apply str_eqb_neq; congruence).
    exact IH.
  - destruct (str_eqb k other); [reflexivity | exact IH].
Qed.

Lemma delete_keys (name : str) (data : AddressBook.t) :
  map fst (AddressBook.delete name data)
  = filter (fun k => negb (str_eqb k name)) (map fst data).
Proof.
  unfold AddressBook.delete.
  induction data as [|[k r0] rest IH]; simpl; [reflexivity|].
  destruct (str_eqb k name); simpl; rewrite IH; reflexivity.
Qed.

(** X3. After [delete] the name is not found and every other name is
    found as before; deleting a name the book does not have changes
    nothing. *)
Theorem delete_then_find (name other : str) (data : AddressBook.t) :
  AddressBook.find name (AddressBook.delete name data) = None
  /\ (other <> name ->
      AddressBook.find other (AddressBook.delete name data)
      = AddressBook.find other data)
  /\ (AddressBook.find name data = None ->
      AddressBook.delete name data = data).
Proof.
  split; [|split].
  - apply find_none_iff. rewrite delete_keys, filter_In.
    intros [_ H]. rewrite str_eqb_refl in H. discriminate H.
  - apply find_delete_other.
  - intros Hnone. apply find_none_iff in Hnone. unfold AddressBook.delete.
    induction data as [|[k r0] rest IH]; simpl in *; [reflexivity|].
    replace (str_eqb k name) with false
      by (symmetry; apply str_eqb_neq; tauto).
    simpl. rewrite IH by tauto. reflexivity.
Qed.




(* ================================================================== *)
(** * Record methods                                                   *)
(* ================================================================== *)

Lemma Phone_ok_phone_ok (o : object) (p : Field) :
  Phone o = Ok p -> phone_ok p.
Proof.
  intros H. apply Phone_ok_iff in H as (s & _ & -> & Hl & Hd).
  split; assumption.
Qed.

Lemma Phone_raise_ValueError (o : object) (e : exn) :
  Phone o = Raise e -> exists msg, e = ValueError msg.
Proof.
  intros H. destruct (Phone_raises_ValueError o) as [[f Hf] | [msg Hm]].
  - congruence.
  - exists msg. congruence.
Qed.

Lemma add_phone_run (o : object) (r : Record.t) :
  Record.add_phone o r
  = match Phone o with
    | Ok p => (Ok tt, Record.set_phones (Record.phones r ++ [p]) r)
    | Raise e => (Raise e, r)
    end.
Proof.
  unfold Record.add_phone, mbind, lift, modify.
  destruct (Phone o); reflexivity.
Qed.

Lemma change_phone_run (old new : object) (r : Record.t) :
  Record.change_phone old new r
  = let kept :=
      Record.set_phones
        (filter (fun p => Record.differs p old) (Record.phones r)) r in
    match Phone new with
    | Ok p => (Ok tt, Record.set_phones (Record.phones kept ++ [p]) kept)
    | Raise e => (Raise e, kept)
    end.
Proof.
  unfold Record.change_phone, Record.remove_phone, mbind, modify.
  rewrite add_phone_run. reflexivity.
Qed.

(** What [add_birthday] does with the text of a date, and with other
    text. *)
Lemma add_birthday_run (s : str) (r : Record.t) :
  (forall D, strptime s = Ok D ->
             exists A, adjust_birthday D = Ok A /\ valid A
                       /\ 0 <= weekday A <= 4
                       /\ strptime (strftime A) = Ok A
                       /\ Record.add_birthday s r
                          = (Ok tt,
                             Record.set_birthday
                               (Some (mkField (strftime A))) r))
  /\ (forall e, strptime s = Raise e ->
                Record.add_birthday s r = (Raise e, r)
                /\ exists msg, e = ValueError msg).
Proof.
  split.
  - intros D HD. pose proof (strptime_valid _ HD) as HvD.
    destruct (adjust_birthday_cases HvD) as (A & HA & HvA & Hsat & Hsun & Hwk).
    pose proof (weekday_range D) as HwD. pose proof (weekday_range A) as HwA.
    pose proof (@strptime_strftime A HvA) as Hrt.
    exists A. split; [exact HA|]. split; [exact HvA|]. split; [|split].
    + destruct (Z.eq_dec (weekday D) 5) as [E5 | N5];
        [apply Hsat in E5; lia|].
      destruct (Z.eq_dec (weekday D) 6) as [E6 | N6];
        [apply Hsun in E6; lia|].
      rewrite (Hwk ltac:(lia)). lia.
    + exact Hrt.
    + unfold Record.add_birthday, mbind, lift, modify, Birthday.
      rewrite HD, HA, Hrt. reflexivity.
  - intros e He. split.
    + unfold Record.add_birthday, mbind, lift. rewrite He. reflexivity.
    + apply (strptime_raises_ValueError _ He).
Qed.

Lemma filter_keeps_phone_ok (f : Field -> bool) (ps : list Field) :
  Forall phone_ok ps -> Forall phone_ok (filter f ps).
Proof.
  rewrite !Forall_forall. intros H p Hp.
  apply filter_In in Hp as [Hp _]. auto.
Qed.

Lemma add_phone_keeps_ok (r : Record.t) (o : object) :
  record_ok r -> record_ok (snd (Record.add_phone o r)).
Proof.
  intros [Hph Hbd]. rewrite add_phone_run.
  destruct (Phone o) as [p | e] eqn:Hp; simpl; [|split; assumption].
  split; [|exact Hbd]. simpl. apply Forall_app. split; [exact Hph|].
  constructor; [apply (@Phone_ok_phone_ok _ _ Hp) | constructor].
Qed.

Lemma remove_phone_keeps_ok (r : Record.t) (o : object) :
  record_ok r -> record_ok (snd (Record.remove_phone o r)).
Proof.
  intros [Hph Hbd]. simpl. split; [|exact Hbd]. simpl.
  apply filter_keeps_phone_ok. exact Hph.
Qed.

Lemma change_phone_keeps_ok (r : Record.t) (o o' : object) :
  record_ok r -> record_ok (snd (Record.change_phone o o' r)).
Proof.
  intros [Hph Hbd]. rewrite change_phone_run. cbv zeta.
  pose proof (filter_keeps_phone_ok (fun p => Record.differs p o) Hph)
    as Hkept.
  destruct (Phone o') as [p | e] eqn:Hp; simpl; [|split; assumption].
  split; [|exact Hbd]. simpl. apply Forall_app. split; [exact Hkept|].
  constructor; [apply (@Phone_ok_phone_ok _ _ Hp) | constructor].
Qed.

Lemma add_birthday_keeps_ok (r : Record.t) (s : str) :
  record_ok r -> record_ok (snd (Record.add_birthday s r)).
Proof.
  intros [Hph Hbd]. destruct (add_birthday_run s r) as [Hgood Hbad].
  destruct (strptime s) as [D | e] eqn:HD.
  - destruct (Hgood D eq_refl) as (A & _ & _ & HwA & Hrt & ->). simpl.
    split; [exact Hph|]. simpl. intros b [= <-].
    exists A. split; assumption.
  - destruct (Hbad e eq_refl) as [-> _]. simpl. split; assumption.
Qed.

Lemma record_method_raises (r : Record.t) (o o' : object)
  (s : str) (method : M Record.t unit) :
  method = Record.add_phone o \/ method = Record.remove_phone o
  \/ method = Record.change_phone o o' \/ method = Record.add_birthday s ->
  Record.name (snd (method r)) = Record.name r
  /\ (forall e, fst (method r) = Raise e -> exists msg, e = ValueError msg).
Proof.
  intros [-> | [-> | [-> | ->]]].
  - rewrite add_phone_run. destruct (Phone o) as [p | e] eqn:Hp; simpl.
    + split; [reflexivity | discriminate].
    + split; [reflexivity|].
      intros e' [= <-]. apply (@Phone_raise_ValueError _ _ Hp).
  - simpl. split; [reflexivity | discriminate].
  - rewrite change_phone_run. cbv zeta.
    destruct (Phone o') as [p | e] eqn:Hp; simpl.
    + split; [reflexivity | discriminate].
    + split; [reflexivity|].
      intros e' [= <-]. apply (@Phone_raise_ValueError _ _ Hp).
  - destruct (add_birthday_run s r) as [Hgood Hbad].
    destruct (strptime s) as [D | e] eqn:HD.
    + destruct (Hgood D eq_refl) as (A & _ & _ & _ & _ & ->). simpl.
      split; [reflexivity | discriminate].
    + destruct (Hbad e eq_refl) as [-> Hmsg]. simpl.
      split; [reflexivity|]. intros e' [= <-]. exact Hmsg.
Qed.

(** X5. The methods of a record that change it ([add_phone],
    [remove_phone], [change_phone], [add_birthday]) keep it well formed and
    keep its name, whether they return or raise, for every argument; and
    the only exception they raise is ValueError. *)
Theorem record_methods_keep_record_ok (r : Record.t) (o o' : object)
  (s : str) (method : M Record.t unit) :
  record_ok r ->
  method = Record.add_phone o \/ method = Record.remove_phone o
  \/ method = Record.change_phone o o' \/ method = Record.add_birthday s ->
  record_ok (snd (method r))
  /\ Record.name (snd (method r)) = Record.name r
  /\ (forall e, fst (method r) = Raise e -> exists msg, e = ValueError msg).
Proof.
  intros Hr Hm. destruct (record_method_raises r Hm) as [Hname Hraise].
  split; [|split; assumption].
  destruct Hm as [-> | [-> | [-> | ->]]].
  - apply add_phone_keeps_ok. exact Hr.
  - apply remove_phone_keeps_ok. exact Hr.
  - apply change_phone_keeps_ok. exact Hr.
  - apply add_birthday_keeps_ok. exact Hr.
Qed.

Lemma record_methods_keep_record_ok_witness :
  let r := Record.mk (mkField (lit "Alice")) [mkField (lit "1234567890")]
             None in
  let method := Record.change_phone (OStr (lit "1234567890")) (OInt 5) in
  record_ok (snd (method r))
  /\ Record.name (snd (method r)) = Record.name r
  /\ (forall e, fst (method r) = Raise e -> exists msg, e = ValueError msg).
Proof.
  intros r method.
  apply (@record_methods_keep_record_ok r (OStr (lit "1234567890")) (OInt 5)
           [] method).
  - split.
    + constructor; [|constructor]. split; [reflexivity|].
      repeat constructor.
    + intros b H. discriminate H.
  - right. right. left. reflexivity.
Defined.

(** X6. When the new number is not a valid phone, [change_phone] has
    already removed every phone equal to the old number when it raises
    ValueError: the record is left without the old number and without the
    new one. *)
Theorem change_phone_invalid_new_loses_old (self : Record.t)
  (old_phone : str) (new_phone : object) (e : exn) :
  Phone new_phone = Raise e ->
  Record.change_phone (OStr old_phone) new_phone self
  = (Raise e,
     Record.mk (Record.name self)
       (filter (fun q => negb (str_eqb (value q) old_phone))
          (Record.phones self))
       (Record.birthday self))
  /\ (exists msg, e = ValueError msg)
  /\ ~ In old_phone
         (map value
            (Record.phones
               (snd (Record.change_phone (OStr old_phone) new_phone self)))).
Proof.
  intros Hp. rewrite change_phone_run. cbv zeta. rewrite Hp.
  split; [reflexivity|]. split; [apply (@Phone_raise_ValueError _ _ Hp)|].
  simpl. rewrite in_map_iff. intros (q & Hq & Hin).
  apply filter_In in Hin as [_ Hin]. simpl in Hin.
  rewrite <- Hq, str_eqb_refl in Hin. discriminate Hin.
Qed.

Lemma change_phone_invalid_new_loses_old_witness :
  let self := Record.mk (mkField (lit "Alice"))
                [mkField (lit "1234567890")] None in
  Record.change_phone (OStr (lit "1234567890")) (OStr (lit "12345")) self
  = (Raise (ValueError "Phone number must be 10 digits long"),
     Record.mk (Record.name self)
       (filter (fun q => negb (str_eqb (value q) (lit "1234567890")))
          (Record.phones self))
       (Record.birthday self))
  /\ (exists msg,
         ValueError "Phone number must be 10 digits long" = ValueError msg)
  /\ ~ In (lit "1234567890")
         (map value
            (Record.phones
               (snd (Record.change_phone (OStr (lit "1234567890"))
                       (OStr (lit "12345")) self)))).
Proof.
  intros self.
  apply (@change_phone_invalid_new_loses_old self (lit "1234567890")
           (OStr (lit "12345"))
           (ValueError "Phone number must be 10 digits long")).
  vm_compute. reflexivity.
Defined.

(** X7. [remove_phone] never raises; it leaves exactly the phones that
    differ from its argument, in their order; removing the same number
    again changes nothing more; and an argument that is not a string
    removes nothing. *)
Theorem remove_phone_removes_all (self : Record.t) (phone : object) :
  fst (Record.remove_phone phone self) = Ok tt
  /\ (forall s, phone = OStr s ->
      Record.phones (snd (Record.remove_phone phone self))
      = filter (fun q => negb (str_eqb (value q) s)) (Record.phones self)
      /\ ~ In s (map value
                   (Record.phones (snd (Record.remove_phone phone self)))))
  /\ snd (Record.remove_phone phone (snd (Record.remove_phone phone self)))
     = snd (Record.remove_phone phone self)
  /\ (isinstance_str phone = false ->
      snd (Record.remove_phone phone self) = self).
Proof.
  unfold Record.remove_phone, modify. simpl.
  split; [reflexivity|]. split; [|split].
  - intros s ->. split; [reflexivity|].
    rewrite in_map_iff. intros (q & Hq & Hin).
    apply filter_In in Hin as [_ Hin]. simpl in Hin.
    rewrite <- Hq, str_eqb_refl in Hin. discriminate Hin.
  - unfold Record.set_phones. simpl. f_equal.
    induction (Record.phones self) as [|q qs IH]; [reflexivity|].
    simpl. destruct (Record.differs q phone) eqn:E; simpl.
    + rewrite E. f_equal. exact IH.
    + exact IH.
  - intros Hns. destruct self as [n ps b]. unfold Record.set_phones. simpl.
    f_equal. induction ps as [|q qs IH]; [reflexivity|].
    simpl. destruct phone; try discriminate Hns; simpl; f_equal; exact IH.
Qed.

(** X8. [add_birthday] on the text of a date, from the year 1000 on,
    returns normally and stores the text of the adjusted date, which reads
    back as that date, a Monday-to-Friday date, and which [show_birthday]
    then returns; name and phones stay. On text that is not a date it
    raises ValueError and leaves the record as it was, a birthday stored
    before included. *)
Theorem add_birthday_stores_adjusted_date (self : Record.t) (text : str) :
  (forall D, strptime text = Ok D -> 1000 <= year D ->
             exists A, adjust_birthday D = Ok A
                       /\ Record.add_birthday text self
                          = (Ok tt,
                             Record.mk (Record.name self) (Record.phones self)
                               (Some (mkField (strftime A))))
                       /\ strptime (strftime A) = Ok A
                       /\ 0 <= weekday A <= 4
                       /\ Record.show_birthday
                            (snd (Record.add_birthday text self))
                          = strftime A)
  /\ (forall e, strptime text = Raise e ->
                Record.add_birthday text self = (Raise e, self)
                /\ exists msg, e = ValueError msg).
Proof.
  destruct (add_birthday_run text self) as [Hgood Hbad].
  split; [|exact Hbad].
  intros D HD _. destruct (Hgood D HD) as (A & HA & _ & HwA & Hrt & Hrun).
  exists A. rewrite Hrun. auto.
Qed.

(* ================================================================== *)
(** * More on the upcoming birthdays                                   *)
(* ================================================================== *)

(** X9. When [get_upcoming_birthdays] returns, it returns one entry for
    every record that has a birthday, none left out, under the record's
    name and in the order of the book. *)
Theorem get_upcoming_birthdays_one_entry_per_birthday (today : date)
  (data : AddressBook.t) (entries : list user) :
  AddressBook.get_upcoming_birthdays today data = Ok entries ->
  map user_name entries
  = map (fun r => value (Record.name r))
      (filter has_birthday (AddressBook.values data))
  /\ List.length entries
     = List.length (filter has_birthday (AddressBook.values data)).
Proof.
  intros H. unfold AddressBook.get_upcoming_birthdays in H.
  apply upcoming_loop_ok in H as (added & -> & Hall). simpl.
  induction Hall as [|r u rs us Hu _ IH]; [split; reflexivity|].
  destruct IH as [IHn IHl]. destruct Hu as [Hname _].
  simpl. rewrite Hname, IHn, IHl. split; reflexivity.
Qed.

Lemma get_upcoming_birthdays_one_entry_per_birthday_witness :
  let data :=
    [(lit "Alice", Record.mk (mkField (lit "Alice")) []
                     (Some (mkField (lit "17.06.2024"))));
     (lit "Bob", Record.mk (mkField (lit "Bob")) [] None)] in
  map user_name [mkUser (lit "Alice") (Datetime.mk 2025 6 17)]
  = map (fun r => value (Record.name r))
      (filter has_birthday (AddressBook.values data))
  /\ List.length [mkUser (lit "Alice") (Datetime.mk 2025 6 17)]
     = List.length (filter has_birthday (AddressBook.values data)).
Proof.
  intros data.
  apply (@get_upcoming_birthdays_one_entry_per_birthday
           (Datetime.mk 2024 12 28) data).
  vm_compute. reflexivity.
Defined.

Lemma candidate_not_before_today (today B c : date) :
  valid today -> candidate_of today B = Ok c ->
  valid c /\ 0 <= sub_days c today
  /\ month c = month B /\ day c = day B
  /\ (year c = year today
      \/ year c = year today + 1
         /\ ltb (Datetime.mk (year today) (month B) (day B)) today = true).
Proof.
  intros Ht Hc. apply candidate_of_ok in Hc as (-> & Hvc & Hv0).
  split; [exact Hvc|]. unfold reanchor_spec in *. cbv zeta in *.
  unfold sub_days.
  destruct (ltb (Datetime.mk (year today) (month B) (day B)) today) eqn:E.
  - assert (ltb today (Datetime.mk (year today + 1) (month B) (day B))
            = true) as Hlt.
    { unfold ltb. simpl. replace (year today <? year today + 1) with true
        by (symmetry; apply Z.ltb_lt; lia). reflexivity. }
    pose proof (toordinal_lt Ht Hvc Hlt). simpl.
    split; [lia|]. split; [reflexivity|]. split; [reflexivity|].
    right. split; reflexivity.
  - simpl. split; [|split; [reflexivity|split; [reflexivity|left; reflexivity]]].
    destruct (ltb_trichotomy (Datetime.mk (year today) (month B) (day B))
                today) as [H | [H | H]].
    + congruence.
    + rewrite H. lia.
    + pose proof (toordinal_lt Ht Hv0 H). lia.
Qed.

(** X10. Every date [get_upcoming_birthdays] reports is a date of the
    calendar that is today or later, never earlier: it falls in today's
    year, or in the next year when that day of the year is already over. *)
Theorem get_upcoming_birthdays_never_in_the_past (today : date)
  (data : AddressBook.t) (entries : list user) :
  valid today ->
  AddressBook.get_upcoming_birthdays today data = Ok entries ->
  Forall (fun u =>
            valid (user_birthday u)
            /\ 0 <= sub_days (user_birthday u) today
            /\ (year (user_birthday u) = year today
                \/ year (user_birthday u) = year today + 1
                   /\ ltb (Datetime.mk (year today)
                             (month (user_birthday u))
                             (day (user_birthday u))) today = true))
    entries.
Proof.
  intros Ht H. unfold AddressBook.get_upcoming_birthdays in H.
  apply upcoming_loop_ok in H as (added & -> & Hall). simpl.
  induction Hall as [|r u rs us Hu _ IH]; constructor; [|exact IH].
  destruct Hu as (_ & b & B & _ & _ & Hc).
  destruct (@candidate_not_before_today today B _ Ht Hc)
    as (Hv & Hsub & Hm & Hd & Hy).
  rewrite Hm, Hd. auto.
Qed.

Lemma get_upcoming_birthdays_never_in_the_past_witness :
  Forall (fun u =>
            valid (user_birthday u)
            /\ 0 <= sub_days (user_birthday u) (Datetime.mk 2024 12 28)
            /\ (year (user_birthday u) = year (Datetime.mk 2024 12 28)
                \/ year (user_birthday u) = year (Datetime.mk 2024 12 28) + 1
                   /\ ltb (Datetime.mk (year (Datetime.mk 2024 12 28))
                             (month (user_birthday u))
                             (day (user_birthday u)))
                        (Datetime.mk 2024 12 28) = true))
    [mkUser (lit "Alice") (Datetime.mk 2025 1 2)].
Proof.
  apply (@get_upcoming_birthdays_never_in_the_past
           (Datetime.mk 2024 12 28)
           [(lit "Alice", Record.mk (mkField (lit "Alice")) []
                            (Some (mkField (lit "02.01.1990"))))]).
  - reflexivity.
  - vm_compute. reflexivity.
Defined.

(** X11. When no record has a birthday that is reported, [birthdays]
    prints the one line that there are none and returns None. When
    [get_upcoming_birthdays] raises, as it does for a stored 29 February in
    a year that is not a leap year, [birthdays] prints nothing, changes
    nothing and returns the reply for invalid input. *)
Theorem birthdays_without_entries (today : date) (args : list str)
  (w : world) :
  (AddressBook.get_upcoming_birthdays today (book w) = Ok [] ->
   birthdays today args w
   = (Ok ONone,
      mkWorld (book w)
        (stdout w ++ [lit "No upcoming birthdays within the next week."])))
  /\ (forall e,
         AddressBook.get_upcoming_birthdays today (book w) = Raise e ->
         birthdays today args w
         = (Ok (OStr (lit "Invalid input. Please check your input format and try again.")),
            w)).
Proof.
  split.
  - intros H. unfold birthdays, input_error.
    unfold mbind at 1. unfold get. unfold mbind at 1. unfold lift at 1.
    rewrite H. reflexivity.
  - intros e H.
    destruct (upcoming_loop_raises_ValueError _ _ _ H) as [msg ->].
    unfold birthdays, input_error.
    unfold mbind at 1. unfold get. unfold mbind at 1. unfold lift at 1.
    rewrite H. reflexivity.
Qed.

(* ================================================================== *)
(** * The handlers of the commands                                     *)
(* ================================================================== *)

Lemma input_error_handled (body : M world object) (w : world) :
  handled body w ->
  exists reply, fst (input_error body w) = Ok (OStr reply)
                /\ snd (input_error body w) = snd (body w).
Proof.
  intros [[[t Ht] | [msg Hm]] _]; unfold input_error;
    destruct (body w) as [res w']; simpl in *; subst res;
    eexists; split; reflexivity.
Qed.

Lemma handled_ret (t : str) (w : world) : handled (ret (OStr t)) w.
Proof.
  split; [left; exists t; reflexivity|]. split; [reflexivity | auto].
Qed.

Lemma handled_raise (msg : string) (w : world) :
  handled (raise (ValueError msg)) w.
Proof.
  split; [right; exists msg; reflexivity|]. split; [reflexivity | auto].
Qed.

Lemma book_ok_find (data : AddressBook.t) (key : str) (r : Record.t) :
  book_ok data -> AddressBook.find key data = Some r ->
  key = value (Record.name r) /\ record_ok r.
Proof.
  intros [_ Hall] Hf. apply find_some_in in Hf.
  rewrite Forall_forall in Hall. apply (Hall _ Hf).
Qed.

Lemma setitem_same_id (key : str) (r : Record.t) (data : AddressBook.t) :
  AddressBook.find key data = Some r -> AddressBook.setitem key r data = data.
Proof.
  induction data as [|[k r0] rest IH]; simpl; [discriminate|].
  destruct (str_eqb k key) eqn:E.
  - intros [= ->]. reflexivity.
  - intros H. rewrite IH by exact H. reflexivity.
Qed.

(** A method run on a stored record, followed by a reply. *)
Lemma on_record_handled (key : str) (record : Record.t)
  (method : M Record.t unit) (o o' : object) (s : str) (t : str)
  (w : world) :
  method = Record.add_phone o \/ method = Record.remove_phone o
  \/ method = Record.change_phone o o' \/ method = Record.add_birthday s ->
  (book_ok (book w) -> key = value (Record.name record) /\ record_ok record) ->
  handled (on_record key record method ;;; ret (OStr t))%pym w.
Proof.
  intros Hm Hrec.
  destruct (record_method_raises record Hm) as [Hname Hraise].
  assert (record_ok record -> record_ok (snd (method record))) as Hkeep.
  { intros Hr. destruct Hm as [-> | [-> | [-> | ->]]].
    - apply add_phone_keeps_ok. exact Hr.
    - apply remove_phone_keeps_ok. exact Hr.
    - apply change_phone_keeps_ok. exact Hr.
    - apply add_birthday_keeps_ok. exact Hr. }
  unfold handled, mbind, on_record, ret.
  destruct (method record) as [[[] | e] record'] eqn:E; simpl in *.
  - split; [left; exists t; reflexivity|]. split; [reflexivity|].
    intros Hok. destruct (Hrec Hok) as [Hkey Hr].
    apply setitem_book_ok; [exact Hok | congruence | auto].
  - destruct (Hraise e eq_refl) as [msg ->].
    split; [right; exists msg; reflexivity|]. split; [reflexivity|].
    intros Hok. destruct (Hrec Hok) as [Hkey Hr].
    apply setitem_book_ok; [exact Hok | congruence | auto].
Qed.

Lemma handled_get (k : world -> M world object) (w : world) :
  handled (k w) w -> handled (w0 <- get ;; k w0)%pym w.
Proof. intros H. exact H. Qed.

Lemma handled_ret_bind {A} (x : A) (k : A -> M world object) (w : world) :
  handled (k x) w -> handled (y <- ret x ;; k y)%pym w.
Proof. intros H. exact H. Qed.

Lemma add_contact_handled (args : list str) (w : world) :
  handled
    (match args with
     | name :: phone :: _ =>
         w <- get ;;
         found <-
           match AddressBook.find name (book w) with
           | Some record => ret (record, lit "Contact update.")
           | None =>
               record <- lift (Record.init (OStr name)) ;;
               modify (fun w => mkWorld (AddressBook.add_record record (book w))
                                  (stdout w)) ;;;
               ret (record, lit "Contact added.")
           end ;;
         (match phone with
          | _ :: _ => on_record name (fst found) (Record.add_phone (OStr phone))
          | [] => ret tt
          end) ;;;
         ret (OStr (snd found))
     | _ => raise (ValueError "not enough values to unpack")
     end)%pym w.
Proof.
  destruct args as [|name [|phone rest]]; try apply handled_raise.
  apply handled_get.
  destruct (AddressBook.find name (book w)) as [record |] eqn:Hf.
  - apply handled_ret_bind. cbn [fst snd].
    destruct phone as [|c cs]; [exact (handled_ret _ w)|].
    apply (@on_record_handled name record _ (OStr (c :: cs)) ONone [] _ w).
    + left. reflexivity.
    + intros Hok. apply (@book_ok_find _ _ _ Hok Hf).
  - set (record := Record.mk (mkField name) [] None).
    set (w1 := mkWorld (AddressBook.add_record record (book w)) (stdout w)).
    assert (book_ok (book w) -> book_ok (book w1)) as Hw1.
    { intros Hok. apply setitem_book_ok; [exact Hok | reflexivity |].
      split; [constructor | discriminate]. }
    destruct phone as [|c cs].
    + split; [left; eexists; reflexivity|]. split; [reflexivity | exact Hw1].
    + destruct (@on_record_handled name record
                  (Record.add_phone (OStr (c :: cs))) (OStr (c :: cs)) ONone
                  [] (lit "Contact added.") w1) as (Hres & Hout & Hbook).
      * left. reflexivity.
      * intros _. split; [reflexivity|]. split; [constructor | discriminate].
      * split; [exact Hres|]. split; [exact Hout|].
        intros Hok. apply Hbook, Hw1, Hok.
Qed.

Lemma change_phone_handled (args : list str) (w : world) :
  handled
    (match args with
     | [name; old_phone; new_phone] =>
         w <- get ;;
         match AddressBook.find name (book w) with
         | Some record =>
             on_record name record
               (Record.change_phone (OStr old_phone) (OStr new_phone)) ;;;
             ret (OStr (lit "Phone number changed for " ++ name))
         | None => ret (OStr (lit "Contact not found"))
         end
     | _ => raise (ValueError "wrong number of values to unpack")
     end)%pym w.
Proof.
  destruct args as [|name [|old_phone [|new_phone [|x rest]]]];
    try apply handled_raise.
  apply handled_get.
  destruct (AddressBook.find name (book w)) as [record |] eqn:Hf;
    [|apply handled_ret].
  apply (@on_record_handled name record _ (OStr old_phone) (OStr new_phone)
           [] _ w).
  - right. right. left. reflexivity.
  - intros Hok. apply (@book_ok_find _ _ _ Hok Hf).
Qed.

Lemma add_birthday_handled (args : list str) (w : world) :
  handled
    (match args with
     | [name; birthday] =>
         w <- get ;;
         match AddressBook.find name (book w) with
         | Some record =>
             on_record name record (Record.add_birthday birthday) ;;;
             ret (OStr (lit "Birthday added for " ++ name))
         | None => ret (OStr (lit "Contact not found"))
         end
     | _ => raise (ValueError "wrong number of values to unpack")
     end)%pym w.
Proof.
  destruct args as [|name [|birthday [|x rest]]]; try apply handled_raise.
  apply handled_get.
  destruct (AddressBook.find name (book w)) as [record |] eqn:Hf;
    [|apply handled_ret].
  apply (@on_record_handled name record _ ONone ONone birthday _ w).
  - right. right. right. reflexivity.
  - intros Hok. apply (@book_ok_find _ _ _ Hok Hf).
Qed.

Lemma show_birthday_handled (args : list str) (w : world) :
  handled
    (match args with
     | name :: _ =>
         w <- get ;;
         match AddressBook.find name (book w) with
         | Some record => ret (OStr (Record.show_birthday record))
         | None => ret (OStr (lit "Contact not found"))
         end
     | [] => raise (ValueError "not enough values to unpack")
     end)%pym w.
Proof.
  destruct args as [|name rest]; [apply handled_raise|].
  apply handled_get.
  destruct (AddressBook.find name (book w)); apply handled_ret.
Qed.

Lemma get_phone_handled (name : str) (w : world) :
  handled
    (w <- get ;;
     match AddressBook.find name (book w) with
     | Some record => ret (OStr (Record.get_phone record))
     | None => ret (OStr (lit "Contact not found"))
     end)%pym w.
Proof.
  apply handled_get.
  destruct (AddressBook.find name (book w)); apply handled_ret.
Qed.

(** The three ways [birthdays] goes. *)
Lemma birthdays_outcome (today : date) (args : list str) (w : world) :
  match AddressBook.get_upcoming_birthdays today (book w) with
  | Ok [] =>
      birthdays today args w
      = (Ok ONone,
         mkWorld (book w)
           (stdout w ++ [lit "No upcoming birthdays within the next week."]))
  | Ok (u :: entries) =>
      exists lines,
        birthdays today args w
        = (Ok ONone,
           mkWorld (book w)
             (stdout w
              ++ lit "Upcoming birthdays within the next week:" :: lines))
        /\ List.length lines = S (List.length entries)
  | Raise e =>
      birthdays today args w
      = (Ok (OStr (lit "Invalid input. Please check your input format and try again.")),
         w)
  end.
Proof.
  destruct (AddressBook.get_upcoming_birthdays today (book w))
    as [[|u entries] | e] eqn:E.
  - unfold birthdays, input_error.
    unfold mbind at 1. unfold get. unfold mbind at 1. unfold lift at 1.
    rewrite E. reflexivity.
  - pose proof (get_upcoming_birthdays_valid _ _ E) as Hv.
    destruct (@for_each_body_prints (u :: entries) Hv
                (mkWorld (book w)
                   (stdout w
                    ++ [lit "Upcoming birthdays within the next week:"])))
      as (lines & Hlines & Hall).
    exists lines. split; [|symmetry; apply (Forall2_length Hall)].
    unfold birthdays, input_error.
    unfold mbind at 1. unfold get. unfold mbind at 1. unfold lift at 1.
    rewrite E.
    unfold mbind at 1. unfold print at 1, modify at 1.
    unfold mbind at 1. rewrite Hlines. simpl.
    rewrite <- app_assoc. reflexivity.
  - destruct (upcoming_loop_raises_ValueError _ _ _ E) as [msg ->].
    unfold birthdays, input_error.
    unfold mbind at 1. unfold get. unfold mbind at 1. unfold lift at 1.
    rewrite E. reflexivity.
Qed.

(** Every handler that replies. *)
Lemma handler_replies (h : M world object) (args : list str) (name : str)
  (w : world) :
  h = add_contact args \/ h = change_phone args \/ h = add_birthday args
  \/ h = show_birthday args \/ h = get_phone name ->
  exists body, h = input_error body /\ handled body w.
Proof.
  intros [-> | [-> | [-> | [-> | ->]]]]; eexists; (split; [reflexivity|]).
  - apply add_contact_handled.
  - apply change_phone_handled.
  - apply add_birthday_handled.
  - apply show_birthday_handled.
  - apply get_phone_handled.
Qed.

(** X12. No handler lets an exception through: for every list of
    arguments and every book, [add_contact], [change_phone], [add_birthday],
    [show_birthday] and [get_phone] return a string and print nothing, and
    [birthdays] returns None or a string. *)
Theorem handlers_never_raise (today : date) (args : list str) (name : str)
  (w : world) :
  (forall h,
      h = add_contact args \/ h = change_phone args \/ h = add_birthday args
      \/ h = show_birthday args \/ h = get_phone name ->
      exists reply, fst (h w) = Ok (OStr reply)
                    /\ stdout (snd (h w)) = stdout w)
  /\ (fst (birthdays today args w) = Ok ONone
      \/ exists reply, fst (birthdays today args w) = Ok (OStr reply)).
Proof.
  split.
  - intros h Hh. destruct (@handler_replies h args name w Hh) as (body & -> & Hb).
    destruct (@input_error_handled body w Hb) as (reply & Hr & Hs).
    exists reply. split; [exact Hr|]. rewrite Hs. apply Hb.
  - pose proof (birthdays_outcome today args w) as H.
    destruct (AddressBook.get_upcoming_birthdays today (book w))
      as [[|u entries] | e].
    + left. rewrite H. reflexivity.
    + left. destruct H as (lines & -> & _). reflexivity.
    + right. eexists. rewrite H. reflexivity.
Qed.

(** X13. Every handler keeps a well-formed book well formed, whatever
    its arguments and whether it replies with success or with an error:
    the keys stay distinct, every record stays under its own name, every
    stored phone has ten digits and every stored birthday reads as a
    Monday-to-Friday date. *)
Theorem handlers_keep_book_ok (today : date) (args : list str) (name : str)
  (w : world) (h : M world object) :
  book_ok (book w) ->
  h = add_contact args \/ h = change_phone args \/ h = add_birthday args
  \/ h = show_birthday args \/ h = get_phone name
  \/ h = birthdays today args ->
  book_ok (book (snd (h w))).
Proof.
  intros Hok Hh.
  assert (h = birthdays today args
          \/ (h = add_contact args \/ h = change_phone args
              \/ h = add_birthday args \/ h = show_birthday args
              \/ h = get_phone name)) as [-> | Hh'] by tauto.
  - pose proof (birthdays_outcome today args w) as H.
    destruct (AddressBook.get_upcoming_birthdays today (book w))
      as [[|u entries] | e].
    + rewrite H. exact Hok.
    + destruct H as (lines & -> & _). exact Hok.
    + rewrite H. exact Hok.
  - destruct (@handler_replies h args name w Hh') as (body & -> & Hb).
    destruct (@input_error_handled body w Hb) as (reply & _ & ->).
    apply Hb. exact Hok.
Qed.

Lemma handlers_keep_book_ok_witness :
  book_ok
    (book (snd (add_contact [lit "Alice"; lit "1234567890"]
                  (mkWorld [] [])))).
Proof.
  apply (@handlers_keep_book_ok (Datetime.mk 2024 6 10)
           [lit "Alice"; lit "1234567890"] [] (mkWorld [] [])
           (add_contact [lit "Alice"; lit "1234567890"])).
  - split; constructor.
  - left. reflexivity.
Defined.

Ltac mrun :=
  cbv beta iota delta [mbind get ret lift modify raise on_record fst snd].

(** What [add_contact] does with a name and a number. *)
Lemma add_contact_run (name phone : str) (rest : list str) (w : world) :
  add_contact (name :: phone :: rest) w
  = let record :=
      match AddressBook.find name (book w) with
      | Some record => record
      | None => Record.mk (mkField name) [] None
      end in
    let msg :=
      match AddressBook.find name (book w) with
      | Some _ => lit "Contact update."
      | None => lit "Contact added."
      end in
    let data :=
      match AddressBook.find name (book w) with
      | Some _ => book w
      | None => book w ++ [(name, record)]
      end in
    match phone with
    | [] => (Ok (OStr msg), mkWorld data (stdout w))
    | _ :: _ =>
        match Phone (OStr phone) with
        | Ok p =>
            (Ok (OStr msg),
             mkWorld
               (AddressBook.setitem name
                  (Record.set_phones (Record.phones record ++ [p]) record)
                  data)
               (stdout w))
        | Raise _ =>
            (Ok (OStr (lit "Invalid input. Please check your input format and try again.")),
             mkWorld data (stdout w))
        end
    end.
Proof.
  unfold add_contact, input_error. mrun.
  destruct (AddressBook.find name (book w)) as [record |] eqn:Hf.
  - mrun. destruct phone as [|c cs]; [destruct w; reflexivity|].
    rewrite add_phone_run.
    destruct (Phone (OStr (c :: cs))) as [p | e] eqn:Hp.
    + reflexivity.
    + destruct (@Phone_raise_ValueError _ _ Hp) as [msg ->].
      rewrite (setitem_same_id _ _ Hf). destruct w; reflexivity.
  - unfold Record.init, Name, bind. mrun.
    unfold AddressBook.add_record. cbn [Record.name value book stdout].
    apply find_none_iff in Hf.
    rewrite (@setitem_absent name (Record.mk (mkField name) [] None) _ Hf).
    destruct phone as [|c cs]; [reflexivity|].
    rewrite add_phone_run.
    destruct (Phone (OStr (c :: cs))) as [p | e] eqn:Hp.
    + reflexivity.
    + destruct (@Phone_raise_ValueError _ _ Hp) as [msg ->].
      cbn [book stdout].
      rewrite setitem_same_id; [reflexivity|].
      rewrite <- (@setitem_absent name (Record.mk (mkField name) [] None) _ Hf).
      apply find_setitem_same.
Qed.

Lemma setitem_last (key : str) (r r' : Record.t) (data : AddressBook.t) :
  ~ In key (map fst data) ->
  AddressBook.setitem key r' (data ++ [(key, r)]) = data ++ [(key, r')].
Proof.
  induction data as [|[k r0] rest IH]; simpl; intros Hnot.
  - rewrite str_eqb_refl. reflexivity.
  - replace (str_eqb k key) with false
      by (symmetry; apply str_eqb_neq; tauto).
    rewrite IH by tauto. reflexivity.
Qed.

Lemma Phone_ok_nonempty (phone : str) (p : Field) :
  Phone (OStr phone) = Ok p -> p = mkField phone /\ phone <> [].
Proof.
  intros H. apply Phone_ok_iff in H as (s & [= <-] & -> & Hl & _).
  split; [reflexivity|]. intros ->. discriminate Hl.
Qed.

(** X14. [add_contact] with a name the book does not have and a valid
    number replies "Contact added." and adds, after all the other
    contacts, a record with that name, that one phone and no birthday;
    arguments after the first two are ignored. *)
Theorem add_contact_adds_new_contact (name phone : str) (rest : list str)
  (w : world) (p : Field) :
  AddressBook.find name (book w) = None ->
  Phone (OStr phone) = Ok p ->
  add_contact (name :: phone :: rest) w
  = (Ok (OStr (lit "Contact added.")),
     mkWorld
       (book w ++ [(name, Record.mk (mkField name) [mkField phone] None)])
       (stdout w)).
Proof.
  intros Hf Hp. rewrite add_contact_run. cbv zeta. rewrite Hf, Hp.
  destruct (@Phone_ok_nonempty _ _ Hp) as [-> Hne].
  destruct phone as [|c cs]; [congruence|].
  apply find_none_iff in Hf.
  rewrite (@setitem_last name _ _ _ Hf). reflexivity.
Qed.

Lemma add_contact_adds_new_contact_witness :
  add_contact [lit "Alice"; lit "1234567890"] (mkWorld [] [])
  = (Ok (OStr (lit "Contact added.")),
     mkWorld
       ([] ++ [(lit "Alice",
                Record.mk (mkField (lit "Alice"))
                  [mkField (lit "1234567890")] None)])
       []).
Proof.
  apply (@add_contact_adds_new_contact (lit "Alice") (lit "1234567890") []
           (mkWorld [] []) (mkField (lit "1234567890")));
    vm_compute; reflexivity.
Defined.

(** X15. [add_contact] with a new name and a number that is not a valid
    phone replies that the input is invalid, and yet has added the contact:
    a record with that name and no phone is in the book afterwards. *)
Theorem add_contact_invalid_phone_still_adds (name phone : str)
  (rest : list str) (w : world) (e : exn) :
  AddressBook.find name (book w) = None ->
  phone <> [] ->
  Phone (OStr phone) = Raise e ->
  add_contact (name :: phone :: rest) w
  = (Ok (OStr (lit "Invalid input. Please check your input format and try again.")),
     mkWorld (book w ++ [(name, Record.mk (mkField name) [] None)])
       (stdout w))
  /\ AddressBook.find name (book (snd (add_contact (name :: phone :: rest) w)))
     = Some (Record.mk (mkField name) [] None).
Proof.
  intros Hf Hne Hp.
  assert (add_contact (name :: phone :: rest) w
          = (Ok (OStr (lit "Invalid input. Please check your input format and try again.")),
             mkWorld (book w ++ [(name, Record.mk (mkField name) [] None)])
               (stdout w))) as Hrun.
  { rewrite add_contact_run. cbv zeta. rewrite Hf, Hp.
    destruct phone as [|c cs]; [congruence | reflexivity]. }
  split; [exact Hrun|]. rewrite Hrun. cbn [snd book].
  apply find_none_iff in Hf.
  rewrite <- (@setitem_absent name (Record.mk (mkField name) [] None) _ Hf).
  apply find_setitem_same.
Qed.

Lemma add_contact_invalid_phone_still_adds_witness :
  add_contact [lit "Alice"; lit "12345"] (mkWorld [] [])
  = (Ok (OStr (lit "Invalid input. Please check your input format and try again.")),
     mkWorld ([] ++ [(lit "Alice", Record.mk (mkField (lit "Alice")) [] None)])
       [])
  /\ AddressBook.find (lit "Alice")
       (book (snd (add_contact [lit "Alice"; lit "12345"] (mkWorld [] []))))
     = Some (Record.mk (mkField (lit "Alice")) [] None).
Proof.
  apply (@add_contact_invalid_phone_still_adds (lit "Alice") (lit "12345") []
           (mkWorld [] [])
           (ValueError "Phone number must be 10 digits long")).
  - reflexivity.
  - discriminate.
  - vm_compute. reflexivity.
Defined.

(** X16. [add_contact] with the name of a contact of the book and a valid
    number replies "Contact update." and appends the number to that
    contact's phones, even when the contact has it already; the contact
    keeps its place, and the other contacts are found as before. *)
Theorem add_contact_appends_to_existing (name phone : str)
  (rest : list str) (w : world) (record : Record.t) (p : Field)
  (other : str) :
  AddressBook.find name (book w) = Some record ->
  Phone (OStr phone) = Ok p ->
  let record' :=
    Record.mk (Record.name record) (Record.phones record ++ [mkField phone])
      (Record.birthday record) in
  let w' := snd (add_contact (name :: phone :: rest) w) in
  fst (add_contact (name :: phone :: rest) w)
  = Ok (OStr (lit "Contact update."))
  /\ AddressBook.find name (book w') = Some record'
  /\ map fst (book w') = map fst (book w)
  /\ (other <> name ->
      AddressBook.find other (book w') = AddressBook.find other (book w)).
Proof.
  intros Hf Hp record' w'. subst w'.
  rewrite add_contact_run. cbv zeta. rewrite Hf, Hp.
  destruct (@Phone_ok_nonempty _ _ Hp) as [-> Hne].
  destruct phone as [|c cs]; [congruence|].
  cbn [fst snd book]. split; [reflexivity|]. split; [|split].
  - apply find_setitem_same.
  - rewrite setitem_keys.
    destruct (in_dec (list_eq_dec N.eq_dec) name (map fst (book w)))
      as [Hin | Hnot]; [reflexivity|].
    apply find_none_iff in Hnot. congruence.
  - apply find_setitem_other.
Qed.

Lemma add_contact_appends_to_existing_witness :
  let alice :=
    Record.mk (mkField (lit "Alice")) [mkField (lit "1234567890")] None in
  let w := mkWorld [(lit "Alice", alice)] [] in
  let record' :=
    Record.mk (Record.name alice)
      (Record.phones alice ++ [mkField (lit "1234567890")])
      (Record.birthday alice) in
  let w' := snd (add_contact [lit "Alice"; lit "1234567890"] w) in
  fst (add_contact [lit "Alice"; lit "1234567890"] w)
  = Ok (OStr (lit "Contact update."))
  /\ AddressBook.find (lit "Alice") (book w') = Some record'
  /\ map fst (book w') = map fst (book w)
  /\ (lit "Bob" <> lit "Alice" ->
      AddressBook.find (lit "Bob") (book w')
      = AddressBook.find (lit "Bob") (book w)).
Proof.
  intros alice w.
  apply (@add_contact_appends_to_existing (lit "Alice") (lit "1234567890") []
           w alice (mkField (lit "1234567890")) (lit "Bob"));
    vm_compute; reflexivity.
Defined.

(** What the [change] command does when the contact is in the book. *)
Lemma change_phone_command_run (name old_phone new_phone : str) (w : world)
  (record : Record.t) :
  AddressBook.find name (book w) = Some record ->
  let kept :=
    filter (fun q => negb (str_eqb (value q) old_phone))
      (Record.phones record) in
  change_phone [name; old_phone; new_phone] w
  = match Phone (OStr new_phone) with
    | Ok p =>
        (Ok (OStr (lit "Phone number changed for " ++ name)),
         mkWorld
           (AddressBook.setitem name
              (Record.mk (Record.name record) (kept ++ [p])
                 (Record.birthday record))
              (book w))
           (stdout w))
    | Raise _ =>
        (Ok (OStr (lit "Invalid input. Please check your input format and try again.")),
         mkWorld
           (AddressBook.setitem name
              (Record.mk (Record.name record) kept (Record.birthday record))
              (book w))
           (stdout w))
    end.
Proof.
  intros Hf kept. unfold change_phone, input_error. mrun. rewrite Hf. mrun.
  rewrite change_phone_run. cbv zeta.
  destruct (Phone (OStr new_phone)) as [p | e] eqn:Hp.
  - reflexivity.
  - destruct (@Phone_raise_ValueError _ _ Hp) as [msg ->]. reflexivity.
Qed.

(** X17. The [change] command with a new number that is not a valid
    phone replies that the input is invalid, and the contact has lost the
    old number all the same: afterwards the book holds the contact without
    any phone equal to the old number and without the new one. *)
Theorem change_command_invalid_new_loses_old (name old_phone new_phone : str)
  (w : world) (record : Record.t) (e : exn) :
  AddressBook.find name (book w) = Some record ->
  Phone (OStr new_phone) = Raise e ->
  let w' := snd (change_phone [name; old_phone; new_phone] w) in
  fst (change_phone [name; old_phone; new_phone] w)
  = Ok (OStr (lit "Invalid input. Please check your input format and try again."))
  /\ AddressBook.find name (book w')
     = Some (Record.mk (Record.name record)
               (filter (fun q => negb (str_eqb (value q) old_phone))
                  (Record.phones record))
               (Record.birthday record))
  /\ stdout w' = stdout w.
Proof.
  intros Hf Hp w'. subst w'.
  rewrite (@change_phone_command_run name old_phone new_phone w record Hf).
  cbv zeta. rewrite Hp. cbn [fst snd book stdout].
  split; [reflexivity|]. split; [apply find_setitem_same | reflexivity].
Qed.

Lemma change_command_invalid_new_loses_old_witness :
  let alice :=
    Record.mk (mkField (lit "Alice")) [mkField (lit "1234567890")] None in
  let w := mkWorld [(lit "Alice", alice)] [] in
  let w' :=
    snd (change_phone [lit "Alice"; lit "1234567890"; lit "12345"] w) in
  fst (change_phone [lit "Alice"; lit "1234567890"; lit "12345"] w)
  = Ok (OStr (lit "Invalid input. Please check your input format and try again."))
  /\ AddressBook.find (lit "Alice") (book w')
     = Some (Record.mk (Record.name alice)
               (filter (fun q => negb (str_eqb (value q) (lit "1234567890")))
                  (Record.phones alice))
               (Record.birthday alice))
  /\ stdout w' = stdout w.
Proof.
  intros alice w.
  apply (@change_command_invalid_new_loses_old (lit "Alice")
           (lit "1234567890") (lit "12345") w alice
           (ValueError "Phone number must be 10 digits long"));
    vm_compute; reflexivity.
Defined.

(** X18. The [change] command with a valid new number, for a contact of
    the book, replies that the number was changed; afterwards the contact
    holds its phones other than the old number, in their order, followed by
    the new one, and every other contact is found as before. *)
Theorem change_command_replaces_number (name old_phone new_phone : str)
  (w : world) (record : Record.t) (p : Field) (other : str) :
  AddressBook.find name (book w) = Some record ->
  Phone (OStr new_phone) = Ok p ->
  let w' := snd (change_phone [name; old_phone; new_phone] w) in
  fst (change_phone [name; old_phone; new_phone] w)
  = Ok (OStr (lit "Phone number changed for " ++ name))
  /\ AddressBook.find name (book w')
     = Some (Record.mk (Record.name record)
               (filter (fun q => negb (str_eqb (value q) old_phone))
                  (Record.phones record) ++ [mkField new_phone])
               (Record.birthday record))
  /\ (other <> name ->
      AddressBook.find other (book w') = AddressBook.find other (book w)).
Proof.
  intros Hf Hp w'. subst w'.
  rewrite (@change_phone_command_run name old_phone new_phone w record Hf).
  cbv zeta. rewrite Hp. destruct (@Phone_ok_nonempty _ _ Hp) as [-> _].
  cbn [fst snd book]. split; [reflexivity|].
  split; [apply find_setitem_same | apply find_setitem_other].
Qed.

Lemma change_command_replaces_number_witness :
  let alice :=
    Record.mk (mkField (lit "Alice")) [mkField (lit "1234567890")] None in
  let w := mkWorld [(lit "Alice", alice)] [] in
  let w' :=
    snd (change_phone [lit "Alice"; lit "1234567890"; lit "0987654321"] w) in
  fst (change_phone [lit "Alice"; lit "1234567890"; lit "0987654321"] w)
  = Ok (OStr (lit "Phone number changed for " ++ lit "Alice"))
  /\ AddressBook.find (lit "Alice") (book w')
     = Some (Record.mk (Record.name alice)
               (filter (fun q => negb (str_eqb (value q) (lit "1234567890")))
                  (Record.phones alice) ++ [mkField (lit "0987654321")])
               (Record.birthday alice))
  /\ (lit "Bob" <> lit "Alice" ->
      AddressBook.find (lit "Bob") (book w')
      = AddressBook.find (lit "Bob") (book w)).
Proof.
  intros alice w.
  apply (@change_command_replaces_number (lit "Alice") (lit "1234567890")
           (lit "0987654321") w alice (mkField (lit "0987654321"))
           (lit "Bob"));
    vm_compute; reflexivity.
Defined.

(** X19. For a name the book does not have, [change_phone],
    [add_birthday], [show_birthday] and [get_phone] reply "Contact not
    found" and change nothing. *)
Theorem unknown_contact_is_reported (name : str) (a b : str)
  (rest : list str) (w : world) :
  AddressBook.find name (book w) = None ->
  change_phone [name; a; b] w = (Ok (OStr (lit "Contact not found")), w)
  /\ add_birthday [name; a] w = (Ok (OStr (lit "Contact not found")), w)
  /\ show_birthday (name :: rest) w
     = (Ok (OStr (lit "Contact not found")), w)
  /\ get_phone name w = (Ok (OStr (lit "Contact not found")), w).
Proof.
  intros Hf.
  unfold change_phone, add_birthday, show_birthday, get_phone, input_error.
  mrun. rewrite Hf. mrun. repeat split; reflexivity.
Qed.

Lemma unknown_contact_is_reported_witness :
  change_phone [lit "Bob"; lit "1"; lit "2"] (mkWorld [] [])
  = (Ok (OStr (lit "Contact not found")), mkWorld [] [])
  /\ add_birthday [lit "Bob"; lit "1"] (mkWorld [] [])
     = (Ok (OStr (lit "Contact not found")), mkWorld [] [])
  /\ show_birthday (lit "Bob" :: []) (mkWorld [] [])
     = (Ok (OStr (lit "Contact not found")), mkWorld [] [])
  /\ get_phone (lit "Bob") (mkWorld [] [])
     = (Ok (OStr (lit "Contact not found")), mkWorld [] []).
Proof.
  apply (@unknown_contact_is_reported (lit "Bob") (lit "1") (lit "2") []
           (mkWorld [] [])).
  reflexivity.
Defined.

(** X20. A handler called with the wrong number of arguments replies
    that the input is invalid and changes nothing: [add_contact] with fewer
    than two, [change_phone] with other than three, [add_birthday] with
    other than two, [show_birthday] with none. *)
Theorem wrong_number_of_arguments (args : list str) (w : world) :
  let invalid :=
    (Ok (OStr (lit "Invalid input. Please check your input format and try again.")),
     w) in
  ((List.length args < 2)%nat -> add_contact args w = invalid)
  /\ (List.length args <> 3%nat -> change_phone args w = invalid)
  /\ (List.length args <> 2%nat -> add_birthday args w = invalid)
  /\ (args = [] -> show_birthday args w = invalid).
Proof.
  cbv zeta. repeat split.
  - intros H. destruct args as [|x [|y rest]]; simpl in H; try lia;
      reflexivity.
  - intros H. destruct args as [|x [|y [|z [|t rest]]]]; simpl in H;
      try lia; reflexivity.
  - intros H. destruct args as [|x [|y [|z rest]]]; simpl in H;
      try lia; reflexivity.
  - intros ->. reflexivity.
Qed.




(* ================================================================== *)
(** * The command line                                                 *)
(* ================================================================== *)

Lemma split_from_words (s : str) :
  forall word,
    Forall (fun c => isspace_char c = false) word ->
    Forall word_ok (split_from word s).
Proof.
  induction s as [|c s IH]; intros word Hw; simpl.
  - destruct word; constructor; [|constructor].
    split; [discriminate | exact Hw].
  - destruct (isspace_char c) eqn:E.
    + destruct word as [|x word'].
      * apply IH. constructor.
      * constructor; [split; [discriminate | exact Hw]|].
        apply IH. constructor.
    + apply IH. apply Forall_app. split; [exact Hw|].
      constructor; [exact E | constructor].
Qed.

Lemma split_from_nil_iff (s : str) :
  forall word, split_from word s = [] <-> word = [] /\ blank s.
Proof.
  unfold blank. induction s as [|c s IH]; intros word; simpl.
  - destruct word; split; try discriminate; auto.
    intros [H _]. discriminate H.
  - destruct (isspace_char c) eqn:E.
    + destruct word as [|x word'].
      * rewrite IH. split.
        -- intros [_ H]. split; [reflexivity|]. constructor; assumption.
        -- intros [_ H]. inversion H; subst. auto.
      * split; [discriminate | intros [H _]; discriminate H].
    + rewrite IH. split.
      * intros [H _]. destruct word; discriminate H.
      * intros [_ H]. inversion H; subst. congruence.
Qed.

Lemma lstrip_word (t : str) :
  Forall (fun c => isspace_char c = false) t -> lstrip t = t.
Proof.
  intros H. destruct H as [|c t Hc _]; [reflexivity|].
  simpl. rewrite Hc. reflexivity.
Qed.

Lemma strip_word (t : str) :
  Forall (fun c => isspace_char c = false) t -> strip t = t.
Proof.
  intros H. unfold strip. rewrite (lstrip_word H).
  rewrite lstrip_word by (apply Forall_rev; exact H).
  apply rev_involutive.
Qed.

(** X22. [parse_input] raises ValueError exactly on a line without a
    word (empty, or whitespace only). On any other line it returns the
    first word in lower case as the command and the other words, in order,
    as the arguments; the words are those of the line split at whitespace,
    so no argument is empty or contains whitespace. *)
Theorem parse_input_words (lower : str -> str) (line : str) :
  (blank line <->
   parse_input lower line
   = Raise (ValueError "not enough values to unpack"))
  /\ (~ blank line ->
      exists cmd args,
        split line = cmd :: args
        /\ parse_input lower line = Ok (lower cmd, args)
        /\ word_ok cmd /\ Forall word_ok args).
Proof.
  unfold parse_input.
  pose proof (@split_from_words line [] (Forall_nil _)) as Hwords.
  pose proof (split_from_nil_iff line []) as Hnil.
  fold (split line) in Hwords, Hnil.
  destruct (split line) as [|cmd args] eqn:E.
  - split.
    + split; [reflexivity|]. intros _. apply Hnil. reflexivity.
    + intros Hnb. exfalso. apply Hnb. apply Hnil. reflexivity.
  - inversion Hwords as [|? ? Hcmd Hargs]; subst. split.
    + split; [|discriminate].
      intros Hb. assert (cmd :: args = []) as H by (apply Hnil; auto).
      discriminate H.
    + intros _. exists cmd, args. split; [reflexivity|].
      rewrite (strip_word (proj2 Hcmd)). auto.
Qed.

Lemma prefix_of_refl {A} (l : list A) : prefix_of l l.
Proof. exists []. symmetry. apply app_nil_r. Qed.

Lemma prefix_of_app {A} (l m : list A) : prefix_of l (l ++ m).
Proof. exists m. reflexivity. Qed.

Lemma prefix_of_trans {A} (a b c : list A) :
  prefix_of a b -> prefix_of b c -> prefix_of a c.
Proof.
  intros [x ->] [y ->]. exists (x ++ y). symmetry. apply app_assoc.
Qed.

Lemma session_ok_step (today : date) (line : str)
  (rest : list (date * str)) (w w' : world) (r : ending * world) :
  (book_ok (book w) -> book_ok (book w')) ->
  prefix_of (stdout w) (stdout w') ->
  session_ok rest w' r -> session_ok ((today, line) :: rest) w r.
Proof.
  intros Hbook Hout (Hend & Hb & Ho). split; [|split].
  - intros e He. destruct (Hend e He) as [-> Hex].
    split; [reflexivity|]. right. exact Hex.
  - auto.
  - apply (prefix_of_trans Hout Ho).
Qed.

Lemma session_ok_stop (inputs : list (date * str)) (w w' : world)
  (ending_ : ending) :
  ending_ = Exited \/ ending_ = EndOfInput ->
  (book_ok (book w) -> book_ok (book w')) ->
  prefix_of (stdout w) (stdout w') ->
  session_ok inputs w (ending_, w').
Proof.
  intros Hend Hbook Hout. split; [|split; assumption].
  intros e He. simpl in He. destruct Hend; congruence.
Qed.

Lemma for_each_print_all {A} (f : A -> str) (xs : list A) :
  forall w,
    for_each xs (fun x => print (f x)) w
    = (Ok tt, mkWorld (book w) (stdout w ++ map f xs)).
Proof.
  induction xs as [|x xs IH]; intros w; simpl.
  - rewrite app_nil_r. destruct w; reflexivity.
  - unfold mbind at 1. unfold print at 1, modify at 1. rewrite IH. simpl.
    rewrite <- app_assoc. reflexivity.
Qed.

(** A handler whose reply is printed. *)
Lemma print_reply_handler (h : M world object) (args : list str) (name : str)
  (w : world) :
  h = add_contact args \/ h = change_phone args \/ h = add_birthday args
  \/ h = show_birthday args \/ h = get_phone name ->
  exists reply,
    print_reply h w
    = (None, mkWorld (book (snd (h w))) (stdout w ++ [reply]))
    /\ (book_ok (book w) -> book_ok (book (snd (h w)))).
Proof.
  intros Hh. destruct (@handler_replies h args name w Hh) as (body & -> & Hb).
  destruct (@input_error_handled body w Hb) as (reply & Hr & Hs).
  destruct Hb as (_ & Hout & Hbook).
  exists reply. split; [|rewrite Hs; exact Hbook].
  unfold print_reply.
  destruct (input_error body w) as [res w'] eqn:E. simpl in Hr, Hs.
  subst res w'. simpl. rewrite Hout. reflexivity.
Qed.

Lemma birthdays_step (today : date) (args : list str) (w : world) :
  exists res lines,
    birthdays today args w = (Ok res, mkWorld (book w) (stdout w ++ lines)).
Proof.
  pose proof (birthdays_outcome today args w) as H.
  destruct (AddressBook.get_upcoming_birthdays today (book w))
    as [[|u entries] | e].
  - rewrite H. eexists. eexists. reflexivity.
  - destruct H as (lines & -> & _). eexists. eexists. reflexivity.
  - rewrite H. eexists. exists []. rewrite app_nil_r.
    destruct w; reflexivity.
Qed.

Lemma main_loop_session_ok (lower : str -> str)
  (inputs : list (date * str)) :
  forall w, session_ok inputs w (main_loop lower inputs w).
Proof.
  induction inputs as [|[today line] rest IH]; intros w.
  - apply session_ok_stop; [right; reflexivity | auto | apply prefix_of_refl].
  - cbn [main_loop].
    destruct (parse_input lower line) as [[command args] | e] eqn:Hp.
    + cbv zeta.
      assert (forall h,
                 h = add_contact args \/ h = change_phone args
                 \/ h = add_birthday args \/ h = show_birthday args
                 \/ h = get_phone [] ->
                 session_ok ((today, line) :: rest) w
                   match print_reply h w with
                   | (None, w') => main_loop lower rest w'
                   | (Some e, w') => (Uncaught e, w')
                   end) as Hreply.
      { intros h Hh.
        destruct (@print_reply_handler h args [] w Hh) as (reply & -> & Hb).
        eapply session_ok_step; [| |apply IH]; simpl;
          [exact Hb | apply prefix_of_app]. }
      assert (forall l,
                 session_ok ((today, line) :: rest) w
                   (main_loop lower rest (snd (print l w)))) as Hprint.
      { intros l. eapply session_ok_step; [| |apply IH]; simpl;
          [auto | apply prefix_of_app]. }
      destruct (str_eqb command (lit "close") || str_eqb command (lit "exit")).
      { apply session_ok_stop; simpl;
          [left; reflexivity | auto | apply prefix_of_app]. }
      destruct (str_eqb command (lit "hello")); [apply Hprint|].
      destruct (str_eqb command (lit "add")); [apply Hreply; tauto|].
      destruct (str_eqb command (lit "change")); [apply Hreply; tauto|].
      destruct (str_eqb command (lit "phone")).
      { destruct args as [|name args']; [apply Hprint|].
        destruct (AddressBook.find name (book w)); apply Hprint. }
      destruct (str_eqb command (lit "all")).
      { rewrite for_each_print_all.
        eapply session_ok_step; [| |apply IH]; simpl;
          [auto | apply prefix_of_app]. }
      destruct (str_eqb command (lit "add-birthday")); [apply Hreply; tauto|].
      destruct (str_eqb command (lit "show-birthday"));
        [apply Hreply; tauto|].
      destruct (str_eqb command (lit "birthdays")); [|apply Hprint].
      destruct (birthdays_step today args w) as (res & lines & ->).
      eapply session_ok_step; [| |apply IH]; simpl;
        [auto | apply prefix_of_app].
    + split; [|split; [auto | apply prefix_of_refl]].
      intros e' [= <-]. unfold parse_input in Hp.
      destruct (split line) as [|cmd args] eqn:E; [|discriminate Hp].
      injection Hp as <-. split; [reflexivity|]. left. simpl.
      apply (split_from_nil_iff line []). exact E.
Qed.

Lemma parse_input_split (lower : str -> str) (line cmd : str)
  (args : list str) :
  split line = cmd :: args -> parse_input lower line = Ok (lower cmd, args).
Proof.
  intros E. unfold parse_input. rewrite E.
  pose proof (@split_from_words line [] (Forall_nil _)) as Hwords.
  fold (split line) in Hwords. rewrite E in Hwords.
  inversion Hwords as [|? ? [_ Hcmd] _]; subst.
  rewrite (strip_word Hcmd). reflexivity.
Qed.



(** X24. The book [main] hands to [save_data] is well formed whenever
    the book it loaded was, whatever lines were entered and however the
    loop ended. *)
Theorem main_saves_well_formed_book (lower : str -> str)
  (loaded : AddressBook.t) (inputs : list (date * str)) :
  book_ok loaded -> book_ok (book (snd (main lower loaded inputs))).
Proof.
  intros Hok. unfold main.
  destruct (main_loop_session_ok lower inputs
              (snd (print (lit "Welcome to the assistant bot!")
                      (mkWorld loaded [])))) as (_ & Hbook & _).
  apply Hbook. exact Hok.
Qed.

Lemma main_saves_well_formed_book_witness :
  book_ok
    (book (snd (main (fun s => s) []
                  [(Datetime.mk 2024 6 10, lit "add Alice 1234567890");
                   (Datetime.mk 2024 6 10, lit "add-birthday Alice 15.06.2024");
                   (Datetime.mk 2024 6 10, lit "exit")]))).
Proof.
  apply (@main_saves_well_formed_book (fun s => s) []
           [(Datetime.mk 2024 6 10, lit "add Alice 1234567890");
            (Datetime.mk 2024 6 10, lit "add-birthday Alice 15.06.2024");
            (Datetime.mk 2024 6 10, lit "exit")]).
  split; constructor.
Defined.

(** X25. [main] prints the welcome line first, and the loop only adds
    lines after those already printed. *)
Theorem main_output_only_grows (lower : str -> str)
  (loaded : AddressBook.t) (inputs : list (date * str)) (w : world) :
  prefix_of [lit "Welcome to the assistant bot!"]
    (stdout (snd (main lower loaded inputs)))
  /\ prefix_of (stdout w) (stdout (snd (main_loop lower inputs w))).
Proof.
  split.
  - unfold main.
    destruct (main_loop_session_ok lower inputs
                (snd (print (lit "Welcome to the assistant bot!")
                        (mkWorld loaded [])))) as (_ & _ & Hout).
    exact Hout.
  - destruct (main_loop_session_ok lower inputs w) as (_ & _ & Hout).
    exact Hout.
Qed.

(** X26. On a line without a word the loop stops at once with the
    ValueError of [parse_input]: nothing is printed, the lines after it are
    not read, and the book is the one before the line. *)
Theorem main_loop_line_without_word (lower : str -> str) (today : date)
  (line : str) (rest : list (date * str)) (w : world) :
  blank line ->
  main_loop lower ((today, line) :: rest) w
  = (Uncaught (ValueError "not enough values to unpack"), w).
Proof.
  intros Hb. cbn [main_loop]. unfold parse_input.
  assert (split line = []) as -> by (apply split_from_nil_iff; auto).
  reflexivity.
Qed.

Lemma main_loop_line_without_word_witness :
  main_loop (fun s => s)
    ((Datetime.mk 2024 6 10, lit "  ")
     :: [(Datetime.mk 2024 6 10, lit "hello")])
    (mkWorld [] [])
  = (Uncaught (ValueError "not enough values to unpack"), mkWorld [] []).
Proof.
  apply (@main_loop_line_without_word (fun s => s) (Datetime.mk 2024 6 10)
           (lit "  ") [(Datetime.mk 2024 6 10, lit "hello")] (mkWorld [] [])).
  repeat constructor.
Defined.

(** X27. On a line whose first word is [close] or [exit] in lower case
    the loop prints "Good bye!" and ends; the words after the command and
    the lines after it play no part, and the book stays. *)
Theorem main_loop_exit (lower : str -> str) (today : date)
  (line cmd : str) (args : list str) (rest : list (date * str))
  (w : world) :
  split line = cmd :: args ->
  lower cmd = lit "close" \/ lower cmd = lit "exit" ->
  main_loop lower ((today, line) :: rest) w
  = (Exited, mkWorld (book w) (stdout w ++ [lit "Good bye!"])).
Proof.
  intros E Hcmd. cbn [main_loop]. rewrite (@parse_input_split lower line cmd args E).
  destruct Hcmd as [-> | ->]; reflexivity.
Qed.

Lemma main_loop_exit_witness :
  main_loop (fun s => s)
    ((Datetime.mk 2024 6 10, lit "exit now")
     :: [(Datetime.mk 2024 6 10, lit "hello")])
    (mkWorld [] [])
  = (Exited, mkWorld (book (mkWorld [] []))
               (stdout (mkWorld [] []) ++ [lit "Good bye!"])).
Proof.
  apply (@main_loop_exit (fun s => s) (Datetime.mk 2024 6 10)
           (lit "exit now") (lit "exit") [lit "now"]
           [(Datetime.mk 2024 6 10, lit "hello")] (mkWorld [] [])).
  - vm_compute. reflexivity.
  - right. reflexivity.
Defined.

Lemma show_birthday_state (args : list str) (w : world) :
  snd (show_birthday args w) = w.
Proof.
  unfold show_birthday, input_error. destruct args as [|name rest]; mrun.
  - reflexivity.
  - destruct (AddressBook.find name (book w)); reflexivity.
Qed.

(** X28. A line whose command is none of [close], [exit], [add],
    [change] and [add-birthday] leaves the book as it is: [hello], [phone],
    [all], [show-birthday], [birthdays] and every unknown command only
    print, and the loop goes on with the next line. *)
Theorem main_loop_read_only_commands (lower : str -> str) (today : date)
  (line cmd : str) (args : list str) (rest : list (date * str))
  (w : world) :
  split line = cmd :: args ->
  ~ In (lower cmd)
      [lit "close"; lit "exit"; lit "add"; lit "change"; lit "add-birthday"] ->
  exists lines,
    main_loop lower ((today, line) :: rest) w
    = main_loop lower rest (mkWorld (book w) (stdout w ++ lines)).
Proof.
  intros E Hnot. cbn [main_loop]. rewrite (@parse_input_split lower line cmd args E).
  cbv zeta. simpl in Hnot.
  replace (str_eqb (lower cmd) (lit "close")) with false
    by (symmetry; apply str_eqb_neq; intros H; apply Hnot; auto).
  replace (str_eqb (lower cmd) (lit "exit")) with false
    by (symmetry; apply str_eqb_neq; intros H; apply Hnot; auto).
  replace (str_eqb (lower cmd) (lit "add")) with false
    by (symmetry; apply str_eqb_neq; intros H; apply Hnot; auto).
  replace (str_eqb (lower cmd) (lit "change")) with false
    by (symmetry; apply str_eqb_neq; intros H; apply Hnot; auto).
  replace (str_eqb (lower cmd) (lit "add-birthday")) with false
    by (symmetry; apply str_eqb_neq; intros H; apply Hnot; auto 6).
  cbn [orb].
  destruct (str_eqb (lower cmd) (lit "hello")); [eexists; reflexivity|].
  destruct (str_eqb (lower cmd) (lit "phone")).
  { destruct args as [|name args']; [eexists; reflexivity|].
    destruct (AddressBook.find name (book w)); eexists; reflexivity. }
  destruct (str_eqb (lower cmd) (lit "all")).
  { rewrite for_each_print_all. eexists. reflexivity. }
  destruct (str_eqb (lower cmd) (lit "show-birthday")).
  { destruct (@print_reply_handler (show_birthday args) args [] w
                ltac:(tauto)) as (reply & -> & _).
    rewrite show_birthday_state. eexists. reflexivity. }
  destruct (str_eqb (lower cmd) (lit "birthdays")); [|eexists; reflexivity].
  destruct (birthdays_step today args w) as (res & lines & ->).
  eexists. reflexivity.
Qed.

Lemma main_loop_read_only_commands_witness :
  exists lines,
    main_loop (fun s => s) ((Datetime.mk 2024 6 10, lit "hullo") :: [])
      (mkWorld [] [])
    = main_loop (fun s => s) []
        (mkWorld (book (mkWorld [] [])) (stdout (mkWorld [] []) ++ lines)).
Proof.
  apply (@main_loop_read_only_commands (fun s => s) (Datetime.mk 2024 6 10)
           (lit "hullo") (lit "hullo") [] [] (mkWorld [] [])).
  - vm_compute. reflexivity.
  - vm_compute. intuition discriminate.
Defined.

(* ================================================================== *)
(** * More on the birthday itself                                      *)
(* ================================================================== *)

(** X29. For every date, [adjust_birthday] returns a date, never an
    earlier one and at most three days later: a Saturday gives the Tuesday
    three days later, a Sunday the Wednesday three days later, and a
    Monday-to-Friday date is returned as it is. No date is moved to a
    Monday. *)
Theorem adjust_birthday_moves_weekend_by_three_days (D : date) :
  valid D ->
  exists R, adjust_birthday D = Ok R /\ valid R
            /\ 0 <= sub_days R D <= 3
            /\ (weekday D = 5 -> sub_days R D = 3 /\ weekday R = 1)
            /\ (weekday D = 6 -> sub_days R D = 3 /\ weekday R = 2)
            /\ (weekday D <= 4 -> R = D)
            /\ (R <> D -> weekday R <> 0).
Proof.
  intros HD. pose proof (weekday_range D) as Hwd.
  destruct (adjust_birthday_cases HD) as (R & HR & HvR & Hsat & Hsun & Hwk).
  exists R. split; [exact HR|]. split; [exact HvR|].
  split; [|split; [exact Hsat|split; [exact Hsun|split; [exact Hwk|]]]].
  - destruct (Z.eq_dec (weekday D) 5) as [E5 | N5];
      [destruct (Hsat E5); lia|].
    destruct (Z.eq_dec (weekday D) 6) as [E6 | N6];
      [destruct (Hsun E6); lia|].
    rewrite (Hwk ltac:(lia)). unfold sub_days. lia.
  - intros Hne.
    destruct (Z.eq_dec (weekday D) 5) as [E5 | N5];
      [destruct (Hsat E5); lia|].
    destruct (Z.eq_dec (weekday D) 6) as [E6 | N6];
      [destruct (Hsun E6); lia|].
    destruct Hne. apply Hwk. lia.
Qed.

Lemma adjust_birthday_moves_weekend_by_three_days_witness :
  exists R, adjust_birthday (Datetime.mk 2024 9 15) = Ok R /\ valid R
            /\ 0 <= sub_days R (Datetime.mk 2024 9 15) <= 3
            /\ (weekday (Datetime.mk 2024 9 15) = 5 ->
                sub_days R (Datetime.mk 2024 9 15) = 3 /\ weekday R = 1)
            /\ (weekday (Datetime.mk 2024 9 15) = 6 ->
                sub_days R (Datetime.mk 2024 9 15) = 3 /\ weekday R = 2)
            /\ (weekday (Datetime.mk 2024 9 15) <= 4 ->
                R = Datetime.mk 2024 9 15)
            /\ (R <> Datetime.mk 2024 9 15 -> weekday R <> 0).
Proof.
  apply (@adjust_birthday_moves_weekend_by_three_days
           (Datetime.mk 2024 9 15)).
  reflexivity.
Defined.

(** X30. A Birthday field is constructed exactly from the text
    [strptime] reads as a date; any other text is refused with the one
    ValueError that names the format, whatever was wrong with it; and the
    text [strftime] writes for a date from the year 1000 on is accepted. *)
Theorem Birthday_validation (text : str) :
  (forall f, Birthday text = Ok f <->
             f = mkField text /\ exists D, strptime text = Ok D /\ valid D)
  /\ (forall e, Birthday text = Raise e ->
                e = ValueError "Invalid date format. Please use DD.MM.YYYY")
  /\ (forall d, valid d -> 1000 <= year d -> text = strftime d ->
                Birthday text = Ok (mkField text)).
Proof.
  unfold Birthday. split; [|split].
  - intros f. destruct (strptime text) as [D | e] eqn:HD.
    + split.
      * intros [= <-]. split; [reflexivity|]. exists D.
        split; [reflexivity | apply (strptime_valid _ HD)].
      * intros [-> _]. reflexivity.
    + destruct (strptime_raises_ValueError _ HD) as [msg ->].
      split; [discriminate|]. intros [_ (D & H & _)]. discriminate H.
  - intros e. destruct (strptime text) as [D | e0] eqn:HD; [discriminate|].
    destruct (strptime_raises_ValueError _ HD) as [msg ->].
    intros [= <-]. reflexivity.
  - intros d Hd _ ->. rewrite (@strptime_strftime d Hd). reflexivity.
Qed.
